(** * Waypoint updater: trajectory window and velocity profile

    A shallow embedding of [ros/src/waypoint_updater/waypoint_updater.py].

    Numbers.  Python floats are read as real numbers ([R]): [math.sqrt] is
    [sqrt], [math.floor] is [Zfloor], [int] truncates toward zero.  Rounding
    of IEEE doubles is not part of that model; where rounding decides a
    property, [distance] is taken again on binary64 (module [Binary64]).

    Objects.  A [Waypoint] message is a Python object; a track is a Python
    list of references to such objects.  The embedding keeps the objects in a
    [Store] and a track as a [list loc], so that a copy of the list
    ([self.waypoints[:]]) shares its objects with the original.

    Effects.  A handler takes the node's fields ([Self]) and the store and
    gives back an [Outcome]: how it ended (returned or raised), the new fields
    and store, and what it sent to rospy, in order.

    rospy.  The module exports its log calls as [logdebug], [loginfo],
    [logwarn], [logerr] and [logfatal]; it has no attribute [error], so
    looking that name up raises [AttributeError]. *)

From Stdlib Require Import Reals ZArith List Lia Lra String Bool.
From Stdlib Require Floats.
Import ListNotations.

Set Implicit Arguments.

(** ** Python and numpy primitives used by the node *)

Inductive exn : Set :=
| IndexError
| ValueError
| AttributeError.

Inductive result (A : Type) : Type :=
| Ok (a : A)
| Raise (e : exn).

Arguments Ok {A} a.
Arguments Raise {A} e.

Definition bind {A B : Type} (m : result A) (k : A -> result B) : result B :=
  match m with
  | Ok a => k a
  | Raise e => Raise e
  end.

Notation "x <- m ;; k" := (bind m (fun x => k))
  (at level 61, m at next level, right associativity).

Module Py.

(** [l[i]] for a list or a one-dimensional array: a negative index counts
    from the end, anything outside [-len, len) raises [IndexError]. *)
Definition index {A : Type} (l : list A) (i : Z) : result A :=
  let n := Z.of_nat (List.length l) in
  let j := if (i <? 0)%Z then (i + n)%Z else i in
  if ((0 <=? j) && (j <? n))%Z
  then match nth_error l (Z.to_nat j) with
       | Some a => Ok a
       | None => Raise IndexError
       end
  else Raise IndexError.

(** [range(a, b)]. *)
Definition range (a b : Z) : list Z :=
  map (fun k => (a + Z.of_nat k)%Z) (seq 0 (Z.to_nat (b - a))).

(** The bounds of [l[a:b]] after Python's clamping. *)
Definition clamp (n i : Z) : Z :=
  if (i <? 0)%Z then Z.max 0 (i + n) else Z.min i n.

(** [l[a:b]]; never raises. *)
Definition slice {A : Type} (l : list A) (a b : Z) : list A :=
  let n := Z.of_nat (List.length l) in
  let lo := clamp n a in
  let hi := clamp n b in
  firstn (Z.to_nat (hi - lo)) (skipn (Z.to_nat lo) l).

(** [sum(l)]: folds [+] from the left, starting at [0]. *)
Definition sum (l : list R) : R := fold_left Rplus l 0%R.

(** [int(x)] on a float: truncation toward zero. *)
Definition int (x : R) : Z :=
  if Rle_dec 0 x then Zfloor x else Zceil x.

(** [int(math.floor(x))]. *)
Definition floor (x : R) : Z := Zfloor x.

(** A list comprehension whose body may raise: the first exception ends
    it. *)
Fixpoint comprehension {A B : Type} (f : A -> result B) (l : list A)
  : result (list B) :=
  match l with
  | [] => Ok []
  | a :: l' =>
      b <- f a ;;
      bs <- comprehension f l' ;;
      Ok (b :: bs)
  end.

End Py.

Module Np.

(** [np.linspace(start, stop, num)] with [endpoint=True]: [num] samples
    [i * step + start], [step = (stop - start) / (num - 1)], the last one
    set to [stop]; a single sample is [start]; a negative [num] raises
    [ValueError]. *)
Definition linspace (start stop : R) (num : Z) : result (list R) :=
  if (num <? 0)%Z then Raise ValueError
  else
    let delta := (stop - start)%R in
    let div := (num - 1)%Z in
    let y := map INR (seq 0 (Z.to_nat num)) in
    let y :=
      if (1 <? num)%Z
      then map (fun i => (i * (delta / IZR div))%R) y
      else map (fun i => (i * delta)%R) y in
    let y := map (fun v => (v + start)%R) y in
    Ok (if (1 <? num)%Z then removelast y ++ [stop] else y).

(** [np.concatenate((a, b), axis=0)] on one-dimensional arrays. *)
Definition concatenate (a b : list R) : list R := a ++ b.

End Np.

(** ** Messages *)

Record Point : Set := { x : R; y : R; z : R }.

Record Quaternion : Set := { qx : R; qy : R; qz : R; qw : R }.

Record Pose : Set := { position : Point; orientation : Quaternion }.

(** [styx_msgs/Waypoint]: [pose.pose] and [twist.twist.linear.x], the fields
    the node reads or writes. *)
Record Waypoint : Set := { pose : Pose; twist_linear_x : R }.

(** [styx_msgs/TrafficLight]: the node reads [state] only. *)
Record TrafficLight : Set := { state : Z }.

(** ** The object store *)

Definition loc : Set := nat.

Record Store : Type := { obj : loc -> Waypoint; next_loc : loc }.

(** [o.twist.twist.linear.x = velocity] on the object at [l]. *)
Definition store_velocity (st : Store) (l : loc) (velocity : R) : Store :=
  {| obj := fun l' =>
              if Nat.eqb l' l
              then {| pose := pose (obj st l'); twist_linear_x := velocity |}
              else obj st l';
     next_loc := next_loc st |}.

(** The objects of a freshly received message, placed at unused locations. *)
Definition alloc (st : Store) (ws : list Waypoint) : list loc * Store :=
  let base := next_loc st in
  (seq base (List.length ws),
   {| obj := fun l =>
               if (base <=? l)%nat
               then nth (l - base) ws (obj st l)
               else obj st l;
      next_loc := (base + List.length ws)%nat |}).

(** The objects a list of references points to, as they are now. *)
Definition deref (st : Store) (refs : list loc) : list Waypoint :=
  map (obj st) refs.

(** The speeds along a list of references, as they are now. *)
Definition speeds (st : Store) (refs : list loc) : list R :=
  map (fun l => twist_linear_x (obj st l)) refs.

(** ** Geometry and the velocity profile *)

Definition LOOKAHEAD_WPS : Z := 200.

Definition VEL_THRESHOLD : R := 5.

(** The lambda [dl] of [distance]. *)
Definition dl (a b : Point) : R :=
  sqrt ((x a - x b) ^ 2 + (y a - y b) ^ 2 + (z a - z b) ^ 2).

(** The body of the loop of [distance]: [i] runs over the rest of the range,
    [wp1] is the index of the previous iteration. *)
Fixpoint distance_loop (st : Store) (waypoints : list loc) (idxs : list Z)
  (wp1 : Z) (dist : R) : result R :=
  match idxs with
  | [] => Ok dist
  | i :: idxs' =>
      a <- Py.index waypoints wp1 ;;
      b <- Py.index waypoints i ;;
      distance_loop st waypoints idxs' i
        (dist + dl (position (pose (obj st a))) (position (pose (obj st b))))
  end.

Definition distance (st : Store) (waypoints : list loc) (wp1 wp2 : Z)
  : result R :=
  distance_loop st waypoints (Py.range wp1 (wp2 + 1)) wp1 0.

Definition get_waypoint_velocity (waypoint : Waypoint) : R :=
  twist_linear_x waypoint.

Definition set_waypoint_velocity (waypoints : list loc) (waypoint : Z)
  (velocity : R) (st : Store) : result unit * Store :=
  match Py.index waypoints waypoint with
  | Ok l => (Ok tt, store_velocity st l velocity)
  | Raise e => (Raise e, st)
  end.

(** The ramp built at lines 88 to 98 of the source. *)
Definition distribution (current_velocity : R) (total_distance : Z)
  : result (list R) :=
  if Rlt_dec current_velocity VEL_THRESHOLD
  then
    rising <- Np.linspace current_velocity VEL_THRESHOLD total_distance ;;
    falling <- Np.linspace VEL_THRESHOLD 0 total_distance ;;
    Ok (Np.concatenate rising falling)
  else Np.linspace current_velocity 0 total_distance.

(** The loop at lines 100 to 106: [wp_idxs] is what is left of
    [range(current_pose_wp_idx + 1, stop_point_idx + 1)]. *)
Fixpoint velocity_loop (new_waypoints : list loc) (ramp distances : list R)
  (wp_idxs : list Z) (dist_idx : Z) (velocities : list R) (st : Store)
  : result (list R) * Store :=
  match wp_idxs with
  | [] => (Ok velocities, st)
  | wp_idx :: wp_idxs' =>
      match (d <- Py.index distances dist_idx ;; Py.index ramp (Py.int d)) with
      | Raise e => (Raise e, st)
      | Ok velocity =>
          match set_waypoint_velocity new_waypoints wp_idx velocity st with
          | (Raise e, st') => (Raise e, st')
          | (Ok _, st') =>
              velocity_loop new_waypoints ramp distances wp_idxs'
                (dist_idx + 1) (velocities ++ [velocity]) st'
          end
      end
  end.

(** [self.set_velocity_leading_to_stop_point]; [waypoints] and
    [current_velocity] are the fields of [self] it reads. *)
Definition set_velocity_leading_to_stop_point (waypoints : list loc)
  (current_velocity : R) (current_pose_wp_idx stop_point_idx : Z) (st : Store)
  : result (list loc) * Store :=
  let new_waypoints := waypoints in
  match Py.comprehension (fun i => distance st new_waypoints i (i + 1))
          (Py.range current_pose_wp_idx (stop_point_idx + 1)) with
  | Raise e => (Raise e, st)
  | Ok distances =>
      let total_distance := Py.floor (Py.sum distances) in
      match distribution current_velocity total_distance with
      | Raise e => (Raise e, st)
      | Ok ramp =>
          match velocity_loop new_waypoints ramp distances
                  (Py.range (current_pose_wp_idx + 1) (stop_point_idx + 1))
                  0 [] st with
          | (Raise e, st') => (Raise e, st')
          | (Ok _, st') => (Ok new_waypoints, st')
          end
      end
  end.

(** ** The node *)

(** The fields of [WaypointUpdater] that the handlers use.  The spatial index
    [waypoints_kdtree] is kept as the waypoint values it was built from:
    [helper.create_numpy_repr] and [cKDTree] copy the coordinates. *)
Record Self : Type := {
  stop_line_positions : list (R * R);
  waypoints : option (list loc);
  current_velocity : R;
  waypoints_kdtree : option (list Waypoint);
  current_traffic_light : option TrafficLight;
  current_pose : option Pose
}.

(** What a handler hands to rospy: a log call or a message on one of the two
    publishers.  A published lane is serialised when it is published, so it
    holds waypoint values. *)
Inductive Sent : Type :=
| Rospy_loginfo (msg : string)
| Stop_line_waypoint (idx : Z)
| Final_waypoints (lane : list Waypoint).

Record Outcome : Type := {
  status : result unit;
  fields : Self;
  store : Store;
  sent : list Sent
}.

(** The fields after [__init__], for a given [/traffic_light_config]. *)
Definition init (stop_lines : list (R * R)) : Self :=
  {| stop_line_positions := stop_lines;
     waypoints := None;
     current_velocity := 0;
     waypoints_kdtree := None;
     current_traffic_light := None;
     current_pose := None |}.

Definition with_current_pose (self : Self) (p : Pose) : Self :=
  {| stop_line_positions := stop_line_positions self;
     waypoints := waypoints self;
     current_velocity := current_velocity self;
     waypoints_kdtree := waypoints_kdtree self;
     current_traffic_light := current_traffic_light self;
     current_pose := Some p |}.

Definition with_current_traffic_light (self : Self) (tl : option TrafficLight)
  : Self :=
  {| stop_line_positions := stop_line_positions self;
     waypoints := waypoints self;
     current_velocity := current_velocity self;
     waypoints_kdtree := waypoints_kdtree self;
     current_traffic_light := tl;
     current_pose := current_pose self |}.

Definition with_current_velocity (self : Self) (v : R) : Self :=
  {| stop_line_positions := stop_line_positions self;
     waypoints := waypoints self;
     current_velocity := v;
     waypoints_kdtree := waypoints_kdtree self;
     current_traffic_light := current_traffic_light self;
     current_pose := current_pose self |}.

Definition with_waypoints (self : Self) (refs : list loc)
  (tree : list Waypoint) : Self :=
  {| stop_line_positions := stop_line_positions self;
     waypoints := Some refs;
     current_velocity := current_velocity self;
     waypoints_kdtree := Some tree;
     current_traffic_light := current_traffic_light self;
     current_pose := current_pose self |}.

(** The test of line 134: a signal is stored and its state is 0 or 1. *)
Definition must_stop (self : Self) : bool :=
  match current_traffic_light self with
  | None => false
  | Some tl => ((state tl =? 0) || (state tl =? 1))%Z
  end.

Inductive Mode : Set := CRUISE | DECELERATE.

Definition mode (self : Self) : Mode :=
  if must_stop self then DECELERATE else CRUISE.

Inductive Msg : Type :=
| Current_pose (p : Pose)
| Base_waypoints (ws : list Waypoint)
| Traffic_waypoint (tl : TrafficLight)
| Current_velocity (v : R).

Section Node.

(** [helper.next_waypoint_index_kdtree] of [waypoint_lib], whose source is not
    part of the file at hand: the track index ahead of a pose. *)
Variable next_waypoint_index_kdtree : Pose -> option (list Waypoint) -> Z.

(** The index that [cKDTree(positions).query([x, y])] returns. *)
Variable kdtree_query : list (R * R) -> R * R -> Z.

Definition closest_wp_idx (self : Self) (msg : Pose) : Z :=
  next_waypoint_index_kdtree msg (waypoints_kdtree self).

(** Lines 121 to 129: the stop line nearest to the pose, then the track index
    of that stop line. *)
Definition stop_line_waypoint_idx (self : Self) (msg : Pose) : result Z :=
  let stop_line_idx :=
    kdtree_query (stop_line_positions self)
      (x (position msg), y (position msg)) in
  stop_line_position <- Py.index (stop_line_positions self) stop_line_idx ;;
  let stop_line_pose :=
    {| position := {| x := fst stop_line_position;
                      y := snd stop_line_position;
                      z := 0 |};
       orientation := orientation msg |} in
  Ok (next_waypoint_index_kdtree stop_line_pose (waypoints_kdtree self)).

Definition pose_cb (self : Self) (msg : Pose) (st : Store) : Outcome :=
  match waypoints self with
  | None =>
      (* line 112: [rospy.error] does not resolve, the call is never made *)
      {| status := Raise AttributeError; fields := self; store := st;
         sent := [] |}
  | Some canonical =>
      let self := with_current_pose self msg in
      let closest := closest_wp_idx self msg in
      match stop_line_waypoint_idx self msg with
      | Raise e =>
          {| status := Raise e; fields := self; store := st; sent := [] |}
      | Ok stop_idx =>
          let published := [Stop_line_waypoint stop_idx] in
          match
            (if must_stop self
             then set_velocity_leading_to_stop_point canonical
                    (current_velocity self) closest stop_idx st
             else (Ok canonical, st))
          with
          | (Raise e, st') =>
              {| status := Raise e; fields := self; store := st';
                 sent := published |}
          | (Ok new_waypoints, st') =>
              let next_wps :=
                Py.slice new_waypoints closest (closest + LOOKAHEAD_WPS) in
              {| status := Ok tt;
                 fields := with_current_traffic_light self None;
                 store := st';
                 sent := published ++ [Final_waypoints (deref st' next_wps)]
              |}
          end
      end
  end.

Definition waypoints_cb (self : Self) (msg : list Waypoint) (st : Store)
  : Outcome :=
  let (refs, st') := alloc st msg in
  {| status := Ok tt;
     fields := with_waypoints self refs msg;
     store := st';
     sent := [Rospy_loginfo "Received Base waypoints from master...";
              Rospy_loginfo
                "Created KDTree for vehicle waypoints for fast NN query"] |}.

Definition upcoming_traffic_light_cb (self : Self) (msg : TrafficLight)
  (st : Store) : Outcome :=
  {| status := Ok tt;
     fields := with_current_traffic_light self (Some msg);
     store := st;
     sent := [] |}.

Definition current_velocity_cb (self : Self) (msg : R) (st : Store)
  : Outcome :=
  {| status := Ok tt;
     fields := with_current_velocity self msg;
     store := st;
     sent := [] |}.

(** The subscriptions of [__init__]. *)
Definition handle (self : Self) (st : Store) (m : Msg) : Outcome :=
  match m with
  | Current_pose p => pose_cb self p st
  | Base_waypoints ws => waypoints_cb self ws st
  | Traffic_waypoint tl => upcoming_traffic_light_cb self tl st
  | Current_velocity v => current_velocity_cb self v st
  end.

(** [rospy.spin()]: messages are handled one at a time; the fields and the
    store stay as a handler left them, also when it raised. *)
Fixpoint spin (self : Self) (st : Store) (ms : list Msg) : Self * Store :=
  match ms with
  | [] => (self, st)
  | m :: ms' =>
      let o := handle self st m in
      spin (fields o) (store o) ms'
  end.

End Node.

(** ** [distance] on binary64

    The function of lines 168 to 174 with Python's floats as IEEE doubles:
    every [+], [-] and [math.sqrt] rounds to nearest, [(a - b) ** 2] is the
    rounded square, and [dist] starts at [0.0].  [waypoints] is the list of
    the positions [waypoints[i].pose.pose.position]; [distance] reads nothing
    else of a waypoint. *)
Module Binary64.

Import PrimFloat.

Record Point : Set := { x : float; y : float; z : float }.

(** No coordinate is infinite or NaN. *)
Definition finite (p : Point) : bool :=
  is_finite (x p) && is_finite (y p) && is_finite (z p).

Definition dl (a b : Point) : float :=
  sqrt (((x a - x b) * (x a - x b) + (y a - y b) * (y a - y b)
         + (z a - z b) * (z a - z b))%float).

Fixpoint distance_loop (waypoints : list Point) (idxs : list Z) (wp1 : Z)
  (dist : float) : result float :=
  match idxs with
  | [] => Ok dist
  | i :: idxs' =>
      a <- Py.index waypoints wp1 ;;
      b <- Py.index waypoints i ;;
      distance_loop waypoints idxs' i (dist + dl a b)%float
  end.

Definition distance (waypoints : list Point) (wp1 wp2 : Z) : result float :=
  distance_loop waypoints (Py.range wp1 (wp2 + 1)) wp1 zero.

Definition along_x (px : float) : Point :=
  {| x := px; y := zero; z := zero |}.

(** Four positions at x = 0, 0.1, 0.2 and 1.1, as Python reads those
    literals. *)
Definition tenths_track : list Point :=
  [along_x 0x0p+0%float;
   along_x 0x1.999999999999ap-4%float;
   along_x 0x1.999999999999ap-3%float;
   along_x 0x1.199999999999ap+0%float].

End Binary64.

(** ** The claims of the specification, in its own words *)

(** Spec 4.3: a waypoint's own cumulative distance from the start index,
    truncated to an integer. *)
Definition cumulative_distance_index (st : Store) (waypoints : list loc)
  (start_index wp_idx : Z) : result Z :=
  d <- distance st waypoints start_index wp_idx ;;
  Ok (Py.int d).


(** Spec 8: speed at index i is at least the speed at index i+1. *)
Fixpoint non_increasing (l : list R) : Prop :=
  match l with
  | a :: (b :: _) as l' => (b <= a)%R /\ non_increasing l'
  | _ => True
  end.

(** No message of the list is a signal reading. *)
Definition no_signal (m : Msg) : Prop :=
  match m with
  | Traffic_waypoint _ => False
  | _ => True
  end.

(** ** Tracks used in the examples *)

(** A waypoint on the x axis, heading along it. *)
Definition on_axis (px v : R) : Waypoint :=
  {| pose := {| position := {| x := px; y := 0; z := 0 |};
                orientation := {| qx := 0; qy := 0; qz := 0; qw := 1 |} |};
     twist_linear_x := v |}.

Definition at_x (px : R) : Pose := pose (on_axis px 0).

Definition empty_store : Store :=
  {| obj := fun _ => on_axis 0 0; next_loc := 0 |}.

(** Four waypoints at x = 0, 2, 3, 5, all at cruise speed 10. *)
Definition uneven_track : list Waypoint :=
  [on_axis 0 10; on_axis 2 10; on_axis 3 10; on_axis 5 10].

(** Four waypoints at x = 0, 1, 3, 4, all at cruise speed 10. *)
Definition widening_track : list Waypoint :=
  [on_axis 0 10; on_axis 1 10; on_axis 3 10; on_axis 4 10].

(** Three waypoints a quarter of a unit apart. *)
Definition dense_track : list Waypoint :=
  [on_axis 0 10; on_axis (1 / 4) 10; on_axis (1 / 2) 10].

(** Two waypoints, the stop line at the second. *)
Definition short_track : list Waypoint :=
  [on_axis 0 10; on_axis 1 10].

(** Four waypoints one unit apart, as in the scenario of the specification,
    scaled down. *)
Definition unit_track : list Waypoint :=
  [on_axis 0 10; on_axis 1 10; on_axis 2 10; on_axis 3 10].

(** The node after [__init__] and one [/base_waypoints] message. *)
Definition loaded (stop_lines : list (R * R)) (track : list Waypoint)
  : Outcome :=
  waypoints_cb (init stop_lines) track empty_store.

(** The index ahead of a pose on a track laid along the x axis with waypoint
    [k] at abscissa [k]: what [helper.next_waypoint_index_kdtree] answers on
    [short_track] and [unit_track] for a pose on the axis heading along it. *)
Definition ahead_on_unit_axis : Pose -> option (list Waypoint) -> Z :=
  fun p _ => Zceil (x (position p)).

(** The nearest of a single stop line is that stop line. *)
Definition only_stop_line : list (R * R) -> R * R -> Z :=
  fun _ _ => 0%Z.

(** The reading that line 133 of the source calls RED. *)
Definition RED : TrafficLight := {| state := 0 |}.

(** The references and the store after [loaded] on each track. *)
Definition uneven_refs : list loc := [0; 1; 2; 3]%nat.
Definition uneven_store : Store := store (loaded [] uneven_track).
Definition widening_refs : list loc := [0; 1; 2; 3]%nat.
Definition widening_store : Store := store (loaded [] widening_track).
Definition dense_refs : list loc := [0; 1; 2]%nat.
Definition dense_store : Store := store (loaded [] dense_track).
Definition unit_refs : list loc := [0; 1; 2; 3]%nat.

(** The node on [unit_track] with the stop line at the third waypoint, after
    the track, a speed report of 8 and a RED reading have arrived. *)
Definition approaching : Self * Store :=
  spin ahead_on_unit_axis only_stop_line (init [(2%R, 0%R)]) empty_store
    [Base_waypoints unit_track; Current_velocity 8; Traffic_waypoint RED].

(** The node on [unit_track] with the stop line at the first waypoint, after
    the track and a RED reading have arrived. *)
Definition passed : Self * Store :=
  spin ahead_on_unit_axis only_stop_line (init [(0%R, 0%R)]) empty_store
    [Base_waypoints unit_track; Traffic_waypoint RED].

(** The node on [short_track] with the stop line at the last waypoint, after
    the track and a RED reading have arrived. *)
Definition at_track_end : Self * Store :=
  spin ahead_on_unit_axis only_stop_line (init [(1%R, 0%R)]) empty_store
    [Base_waypoints short_track; Traffic_waypoint RED].

(** ** Further scenarios *)

(** The message is not a track. *)
Definition no_track (m : Msg) : Prop :=
  match m with
  | Base_waypoints _ => False
  | _ => True
  end.

(** A reading whose state is neither 0 nor 1; line 138 of the source calls
    it green. *)
Definition GREEN : TrafficLight := {| state := 2 |}.

(** Four waypoints at x = 0, 2, 9/4, 5/2: one long segment, then short
    ones. *)
Definition long_first_track : list Waypoint :=
  [on_axis 0 10; on_axis 2 10; on_axis (9 / 4) 10; on_axis (5 / 2) 10].

Definition long_first_refs : list loc := [0; 1; 2; 3]%nat.
Definition long_first_store : Store := store (loaded [] long_first_track).

(** The node on [unit_track] with the stop line at the third waypoint, after
    the track, a speed report of 8 and a GREEN reading have arrived. *)
Definition cruising : Self * Store :=
  spin ahead_on_unit_axis only_stop_line (init [(2%R, 0%R)]) empty_store
    [Base_waypoints unit_track; Current_velocity 8; Traffic_waypoint GREEN].

(** What holds of the node whenever a handler starts: the stop lines are
    the configured ones; the track and its spatial index are both unset or
    both set; the references of the track are allocated and pairwise
    different; and the index was built from the positions the track has. *)
Definition consistent (stop_lines : list (R * R)) (self : Self) (st : Store)
  : Prop :=
  stop_line_positions self = stop_lines /\
  match waypoints self, waypoints_kdtree self with
  | None, None => True
  | Some refs, Some tree =>
      NoDup refs /\
      Forall (fun l => (l < next_loc st)%nat) refs /\
      map pose (deref st refs) = map pose tree
  | _, _ => False
  end.

(** * Properties *)

Unset Implicit Arguments.

Local Open Scope R_scope.

(** ** Python subscripts and ranges *)

Lemma index_nonneg (A : Type) (l : list A) (i : Z) (a : A) :
  (0 <= i)%Z -> nth_error l (Z.to_nat i) = Some a -> Py.index l i = Ok a.
Proof.
  intros Hi Hn. unfold Py.index.
  assert (Hlt : (Z.to_nat i < List.length l)%nat).
  { apply nth_error_Some. rewrite Hn. discriminate. }
  destruct (Z.ltb_spec i 0) as [Hneg | _]; [lia |].
  destruct (Z.leb_spec 0 i) as [_ | Hneg]; [| lia].
  destruct (Z.ltb_spec i (Z.of_nat (List.length l))) as [_ | Hge]; [| lia].
  simpl. now rewrite Hn.
Qed.

Lemma index_empty (A : Type) (i : Z) : Py.index (@nil A) i = Raise IndexError.
Proof.
  unfold Py.index. simpl.
  destruct (i <? 0)%Z; destruct (0 <=? _)%Z eqn:E1;
    destruct (_ <? 0)%Z eqn:E2; simpl; try reflexivity; lia.
Qed.

Lemma index_in_range (A : Type) (l : list A) (i : Z) :
  (0 <= i < Z.of_nat (List.length l))%Z -> exists a, Py.index l i = Ok a.
Proof.
  intros [H0 Hn].
  destruct (nth_error l (Z.to_nat i)) as [a |] eqn:E.
  - exists a. now apply index_nonneg.
  - apply nth_error_None in E. lia.
Qed.

Lemma range_empty (a b : Z) : (b <= a)%Z -> Py.range a b = [].
Proof.
  intros H. unfold Py.range.
  replace (Z.to_nat (b - a)) with 0%nat by lia. reflexivity.
Qed.

Lemma range_cons (a b : Z) :
  (a < b)%Z -> Py.range a b = a :: Py.range (a + 1) b.
Proof.
  intros H. unfold Py.range.
  replace (Z.to_nat (b - a)) with (S (Z.to_nat (b - (a + 1)))) by lia.
  simpl. f_equal; [lia |].
  rewrite <- seq_shift, map_map.
  apply map_ext. intros k. lia.
Qed.

Lemma range_length (a b : Z) :
  List.length (Py.range a b) = Z.to_nat (b - a).
Proof. unfold Py.range. now rewrite length_map, length_seq. Qed.

Lemma comprehension_length (A B : Type) (f : A -> result B) (l : list A)
  (bs : list B) :
  Py.comprehension f l = Ok bs -> List.length bs = List.length l.
Proof.
  revert bs. induction l as [| a l IH]; simpl; intros bs H.
  - now inversion H.
  - destruct (f a) as [b | e]; simpl in H; [| discriminate].
    destruct (Py.comprehension f l) as [bs' | e]; simpl in H; [| discriminate].
    inversion H; subst. simpl. f_equal. now apply IH.
Qed.

Example index_from_the_end : Py.index [10; 20; 30]%Z (-1) = Ok 30%Z.
Proof. reflexivity. Qed.

Example index_past_the_end : Py.index [10; 20; 30]%Z 3 = Raise IndexError.
Proof. reflexivity. Qed.

Example range_of_the_loop : Py.range (0 + 1) (2 + 1) = [1; 2]%Z.
Proof. reflexivity. Qed.

(** The second scenario of the specification: on a track of 300 waypoints a
    vehicle at index 290 gets the last 10. *)
Example slice_at_track_end :
  Py.slice (seq 0 300) 290 (290 + LOOKAHEAD_WPS) = seq 290 10.
Proof. reflexivity. Qed.

(** ** [np.linspace] *)

Lemma linspace_empty (a b : R) : Np.linspace a b 0 = Ok [].
Proof. reflexivity. Qed.

Lemma linspace_single (a b : R) : Np.linspace a b 1 = Ok [0 * (b - a) + a].
Proof. reflexivity. Qed.

Lemma linspace_samples (a b : R) (n : Z) :
  (2 <= n)%Z ->
  Np.linspace a b n =
    Ok (map (fun i => INR i * ((b - a) / IZR (n - 1)) + a)
          (seq 0 (Z.to_nat n - 1)) ++ [b]).
Proof.
  intros Hn. unfold Np.linspace.
  destruct (Z.ltb_spec n 0) as [Hneg | _]; [lia |].
  destruct (Z.ltb_spec 1 n) as [_ | Hle]; [| lia].
  replace (Z.to_nat n) with (S (Z.to_nat n - 1)) at 1 by lia.
  rewrite seq_S, !map_app. simpl.
  rewrite removelast_last, !map_map. reflexivity.
Qed.

Lemma linspace_length (a b : R) (n : Z) :
  (0 <= n)%Z ->
  exists l, Np.linspace a b n = Ok l /\ List.length l = Z.to_nat n.
Proof.
  intros Hn.
  destruct (Z.eq_dec n 0) as [-> | Hn0].
  { exists []. split; reflexivity. }
  destruct (Z.eq_dec n 1) as [-> | Hn1].
  { eexists. split; [apply linspace_single | reflexivity]. }
  eexists. split; [apply linspace_samples; lia |].
  rewrite length_app, length_map, length_seq. simpl. lia.
Qed.

(** The samples of a ramp of two or more points, by position. *)
Lemma linspace_nth (a b : R) (n : Z) (i : nat) (l : list R) :
  (2 <= n)%Z -> (i < Z.to_nat n)%nat ->
  Np.linspace a b n = Ok l ->
  nth i l 0 = a + INR i * ((b - a) / IZR (n - 1)).
Proof.
  intros Hn Hi Hl. rewrite linspace_samples in Hl by lia.
  inversion Hl; subst l; clear Hl.
  set (f := fun k => INR k * ((b - a) / IZR (n - 1)) + a).
  assert (Hlen : List.length (map f (seq 0 (Z.to_nat n - 1)))
                 = (Z.to_nat n - 1)%nat)
    by now rewrite length_map, length_seq.
  destruct (Nat.eq_dec i (Z.to_nat n - 1)) as [-> | Hne].
  - rewrite app_nth2 by lia. rewrite Hlen, Nat.sub_diag. simpl.
    rewrite INR_IZR_INZ.
    replace (Z.of_nat (Z.to_nat n - 1)) with (n - 1)%Z by lia.
    field. apply not_0_IZR. lia.
  - rewrite app_nth1 by lia.
    rewrite (nth_indep _ 0 (f 0%nat)) by lia.
    rewrite map_nth, seq_nth by lia. unfold f. simpl. lra.
Qed.

(** ** The ramp *)

Lemma distribution_slow (cv : R) (n : Z) (rising falling : list R) :
  cv < VEL_THRESHOLD ->
  Np.linspace cv VEL_THRESHOLD n = Ok rising ->
  Np.linspace VEL_THRESHOLD 0 n = Ok falling ->
  distribution cv n = Ok (rising ++ falling).
Proof.
  intros Hcv Hr Hf. unfold distribution.
  destruct (Rlt_dec cv VEL_THRESHOLD) as [_ | Hge]; [| contradiction].
  rewrite Hr, Hf. reflexivity.
Qed.

Lemma distribution_fast (cv : R) (n : Z) :
  VEL_THRESHOLD <= cv -> distribution cv n = Np.linspace cv 0 n.
Proof.
  intros Hcv. unfold distribution.
  destruct (Rlt_dec cv VEL_THRESHOLD) as [Hlt | _]; [lra | reflexivity].
Qed.

Lemma distribution_zero (cv : R) : distribution cv 0 = Ok [].
Proof.
  unfold distribution. destruct (Rlt_dec cv VEL_THRESHOLD); reflexivity.
Qed.




(** ** [distance] *)

Lemma dl_same (p : Point) : dl p p = 0.
Proof.
  unfold dl.
  replace ((x p - x p) ^ 2 + (y p - y p) ^ 2 + (z p - z p) ^ 2) with 0 by ring.
  apply sqrt_0.
Qed.

Lemma dl_nonneg (p q : Point) : 0 <= dl p q.
Proof. unfold dl. apply sqrt_pos. Qed.

(** On the x axis [dl] is the difference of the abscissas. *)
Lemma dl_on_axis (a b va vb : R) :
  a <= b ->
  dl (position (pose (on_axis a va))) (position (pose (on_axis b vb))) = b - a.
Proof.
  intros H. unfold dl, on_axis. simpl.
  replace ((a - b) * ((a - b) * 1) + (0 - 0) * ((0 - 0) * 1)
           + (0 - 0) * ((0 - 0) * 1)) with ((b - a) * (b - a)) by ring.
  apply sqrt_square. lra.
Qed.

Lemma last_cons_default (A : Type) (l : list A) (a d : A) :
  last (a :: l) d = last l a.
Proof.
  revert a d. induction l as [| b l IH]; intros a d; [reflexivity |].
  change (last (a :: b :: l) d) with (last (b :: l) d).
  rewrite (IH b d). symmetry. apply IH.
Qed.

Lemma range_snoc (a b : Z) :
  (a <= b)%Z -> Py.range a (b + 1) = Py.range a b ++ [b].
Proof.
  intros H. unfold Py.range.
  replace (Z.to_nat (b + 1 - a)) with (S (Z.to_nat (b - a))) by lia.
  rewrite seq_S, map_app. simpl. do 2 f_equal. lia.
Qed.

Lemma range_split (a b c : Z) :
  (a <= b)%Z -> (b <= c)%Z -> Py.range a c = Py.range a b ++ Py.range b c.
Proof.
  intros Hab Hbc. unfold Py.range.
  replace (Z.to_nat (c - a)) with (Z.to_nat (b - a) + Z.to_nat (c - b))%nat
    by lia.
  rewrite seq_app, map_app. f_equal. simpl.
  generalize (Z.to_nat (c - b)). intros m.
  replace (seq (Z.to_nat (b - a)) m)
    with (map (fun k => (Z.to_nat (b - a) + k)%nat) (seq 0 m)).
  - rewrite map_map. apply map_ext. intros k. lia.
  - clear. generalize (Z.to_nat (b - a)). intros s.
    induction m as [| m IH]; [reflexivity |].
    rewrite !seq_S, !map_app, IH. simpl. reflexivity.
Qed.

Lemma distance_loop_app (st : Store) (wps : list loc) (l1 l2 : list Z)
  (prev : Z) (acc : R) :
  distance_loop st wps (l1 ++ l2) prev acc =
    (d <- distance_loop st wps l1 prev acc ;;
     distance_loop st wps l2 (last l1 prev) d).
Proof.
  revert prev acc. induction l1 as [| i l1 IH]; intros prev acc.
  - reflexivity.
  - rewrite last_cons_default. simpl.
    destruct (Py.index wps prev) as [a | e]; simpl; [| reflexivity].
    destruct (Py.index wps i) as [b | e]; simpl; [| reflexivity].
    apply IH.
Qed.

(** Starting the running sum higher shifts the result by as much. *)
Lemma distance_loop_shift (st : Store) (wps : list loc) (l : list Z)
  (prev : Z) (acc acc' c d : R) :
  acc' = acc + c ->
  distance_loop st wps l prev acc = Ok d ->
  exists d', distance_loop st wps l prev acc' = Ok d' /\ d' = d + c.
Proof.
  revert prev acc acc' d. induction l as [| i l IH]; intros prev acc acc' d E H.
  - simpl in *. inversion H; subst. now exists (d + c).
  - simpl in *.
    destruct (Py.index wps prev) as [a | e]; simpl in *; [| discriminate].
    destruct (Py.index wps i) as [b | e]; simpl in *; [| discriminate].
    eapply IH; [| exact H]. subst acc'. ring.
Qed.

(** Over valid indices the loop returns. *)
Lemma distance_loop_returns (st : Store) (wps : list loc) (l : list Z)
  (prev : Z) (acc : R) :
  (0 <= prev < Z.of_nat (List.length wps))%Z ->
  Forall (fun i => (0 <= i < Z.of_nat (List.length wps))%Z) l ->
  exists d, distance_loop st wps l prev acc = Ok d.
Proof.
  revert prev acc. induction l as [| i l IH]; intros prev acc Hp Hl.
  - now exists acc.
  - inversion Hl as [| ? ? Hi Hl']; subst. simpl.
    destruct (index_in_range _ wps prev Hp) as (a & ->).
    destruct (index_in_range _ wps i Hi) as (b & ->). simpl.
    now apply IH.
Qed.

Lemma range_bounds (a b n : Z) :
  (0 <= a)%Z -> (b <= n)%Z -> Forall (fun i => (0 <= i < n)%Z) (Py.range a b).
Proof.
  intros Ha Hb. apply Forall_forall. intros i Hi.
  unfold Py.range in Hi. apply in_map_iff in Hi.
  destruct Hi as (k & <- & Hk). apply in_seq in Hk. lia.
Qed.

Lemma distance_returns (st : Store) (wps : list loc) (i k : Z) :
  (0 <= i)%Z -> (k < Z.of_nat (List.length wps))%Z -> (i <= k)%Z ->
  exists d, distance st wps i k = Ok d.
Proof.
  intros Hi Hk Hik. unfold distance.
  apply distance_loop_returns; [lia |].
  apply range_bounds; lia.
Qed.

(** Over the reals [distance] is path-additive.  For indices
    [0 <= i <= j <= k] of the list, [distance(w, i, i)] is 0 and
    [distance(w, i, k)] is [distance(w, i, j) + distance(w, j, k)]; all three
    calls return.  On binary64 the split holds only up to rounding, see
    [binary64_split_is_inexact]. *)
Theorem distance_path_additive (st : Store) (w : list loc) (i j k : Z) :
  (0 <= i)%Z -> (i <= j)%Z -> (j <= k)%Z -> (k < Z.of_nat (List.length w))%Z ->
  distance st w i i = Ok 0 /\
  exists d1 d2,
    distance st w i j = Ok d1 /\
    distance st w j k = Ok d2 /\
    distance st w i k = Ok (d1 + d2).
Proof.
  intros Hi Hij Hjk Hk. split.
  - unfold distance. rewrite (range_cons i (i + 1)) by lia.
    rewrite (range_empty (i + 1) (i + 1)) by lia. simpl.
    destruct (index_in_range _ w i) as (a & ->); [lia |]. simpl.
    f_equal. rewrite dl_same. ring.
  - destruct (distance_returns st w i j) as (d1 & H1); try lia.
    destruct (distance_returns st w j k) as (d2 & H2); try lia.
    exists d1, d2. split; [exact H1 |]. split; [exact H2 |].
    unfold distance in *.
    rewrite (range_split i (j + 1) (k + 1)) by lia.
    rewrite distance_loop_app, H1. simpl.
    rewrite (range_snoc i j), last_last by lia.
    rewrite (range_cons j (k + 1)) in H2 by lia. simpl in H2.
    destruct (index_in_range _ w j) as (a & Ha); [lia |].
    rewrite Ha in H2. simpl in H2.
    destruct (distance_loop_shift st w (Py.range (j + 1) (k + 1)) j
                (0 + dl (position (pose (obj st a))) (position (pose (obj st a))))
                d1 d1 d2) as (d' & Hd' & ->); [| exact H2 |].
    + rewrite dl_same. ring.
    + rewrite Hd'. f_equal. ring.
Qed.

Lemma distance_path_additive_witness :
  let st := store (loaded [] uneven_track) in
  distance st [0; 1; 2; 3]%nat 0 0 = Ok 0 /\
  exists d1 d2,
    distance st [0; 1; 2; 3]%nat 0 1 = Ok d1 /\
    distance st [0; 1; 2; 3]%nat 1 3 = Ok d2 /\
    distance st [0; 1; 2; 3]%nat 0 3 = Ok (d1 + d2).
Proof.
  intros st. apply (distance_path_additive st [0; 1; 2; 3]%nat 0 1 3).
  - lia.
  - lia.
  - lia.
  - simpl. lia.
Defined.

(** ** The generator as a whole *)

(** The list handed back is the list of references it was given. *)
Lemma set_velocity_returns_its_argument (wps : list loc) (cv : R)
  (start stop : Z) (st st' : Store) (r : list loc) :
  set_velocity_leading_to_stop_point wps cv start stop st = (Ok r, st') ->
  r = wps.
Proof.
  unfold set_velocity_leading_to_stop_point.
  destruct (Py.comprehension _ _) as [ds | e]; [| discriminate].
  destruct (distribution _ _) as [ramp | e]; [| discriminate].
  destruct (velocity_loop _ _ _ _ _ _ _) as [[vs | e] st'']; [| discriminate].
  intros H. now inversion H.
Qed.

(** With the stop index behind the start index every range is empty: nothing
    is indexed and nothing is written. *)
Lemma set_velocity_behind (wps : list loc) (cv : R) (start stop : Z)
  (st : Store) :
  (stop < start)%Z ->
  set_velocity_leading_to_stop_point wps cv start stop st = (Ok wps, st).
Proof.
  intros H. unfold set_velocity_leading_to_stop_point.
  rewrite (range_empty start (stop + 1)) by lia. simpl.
  unfold Py.floor. change (Py.sum []) with (IZR 0). rewrite ZfloorZ.
  rewrite distribution_zero.
  rewrite (range_empty (start + 1) (stop + 1)) by lia. reflexivity.
Qed.

Lemma slice_length (A : Type) (l : list A) (a b : Z) :
  let n := Z.of_nat (List.length l) in
  List.length (Py.slice l a b) = Z.to_nat (Py.clamp n b - Py.clamp n a).
Proof.
  intros n. unfold Py.slice. fold n.
  rewrite length_firstn, length_skipn.
  assert (0 <= n)%Z by (unfold n; lia).
  assert (0 <= Py.clamp n a <= n)%Z by (unfold Py.clamp; destruct (Z.ltb_spec a 0); lia).
  assert (0 <= Py.clamp n b <= n)%Z by (unfold Py.clamp; destruct (Z.ltb_spec b 0); lia).
  lia.
Qed.

(** ** The pose handler *)

Section Cycle.

Variable next_waypoint_index_kdtree : Pose -> option (list Waypoint) -> Z.
Variable kdtree_query : list (R * R) -> R * R -> Z.

Local Abbreviation cycle :=
  (pose_cb next_waypoint_index_kdtree kdtree_query).
Local Abbreviation vehicle_index :=
  (closest_wp_idx next_waypoint_index_kdtree).
Local Abbreviation stop_index :=
  (stop_line_waypoint_idx next_waypoint_index_kdtree kdtree_query).

(** C6 on the code: a pose update that arrives before the track is loaded
    does not report and return.  Line 112 looks up [rospy.error], which rospy
    does not have (line 188 of the source uses [rospy.logerr]), so the
    handler raises [AttributeError] before its [return]: no error report is
    made.  What the claim says of publishing does hold: nothing is published,
    and the fields and the store are as they were. *)
Theorem pose_before_track_raises (self : Self) (msg : Pose) (st : Store) :
  waypoints self = None ->
  let o := cycle self msg st in
  status o = Raise AttributeError /\
  sent o = [] /\
  fields o = self /\
  store o = st.
Proof.
  intros Hw. unfold pose_cb. rewrite Hw. simpl.
  repeat split; reflexivity.
Qed.

(** C7: when the track index of the stop line is behind the vehicle's, the
    cycle ends exactly as it would with no signal stored: it returns, writes
    no speed, and publishes the window cut from the canonical track. *)
Theorem stop_line_behind_is_cruise (self : Self) (msg : Pose) (st : Store)
  (canonical : list loc) (stop_idx : Z) :
  waypoints self = Some canonical ->
  stop_index self msg = Ok stop_idx ->
  (stop_idx < vehicle_index self msg)%Z ->
  let o := cycle self msg st in
  let c := vehicle_index self msg in
  o = cycle (with_current_traffic_light self None) msg st /\
  status o = Ok tt /\
  store o = st /\
  sent o = [Stop_line_waypoint stop_idx;
            Final_waypoints
              (deref st (Py.slice canonical c (c + LOOKAHEAD_WPS)))].
Proof.
  intros Hw Hs Hlt.
  unfold pose_cb. simpl. rewrite Hw.
  unfold stop_line_waypoint_idx, closest_wp_idx in *. simpl in *.
  rewrite Hs.
  rewrite set_velocity_behind by exact Hlt.
  destruct (must_stop _); repeat split; reflexivity.
Qed.

(** C9: a published window never has more than [LOOKAHEAD_WPS] waypoints,
    and for a vehicle index [c] on a track of [n] waypoints it has
    [min(LOOKAHEAD_WPS, n - c)] of them. *)
Theorem window_bound (self : Self) (msg : Pose) (st : Store)
  (canonical : list loc) (lane : list Waypoint) :
  waypoints self = Some canonical ->
  In (Final_waypoints lane) (sent (cycle self msg st)) ->
  let c := vehicle_index self msg in
  let n := Z.of_nat (List.length canonical) in
  (Z.of_nat (List.length lane) <= LOOKAHEAD_WPS)%Z /\
  ((0 <= c <= n)%Z ->
   Z.of_nat (List.length lane) = Z.min LOOKAHEAD_WPS (n - c)).
Proof.
  intros Hw Hin c n. unfold pose_cb in Hin. rewrite Hw in Hin.
  destruct (stop_line_waypoint_idx _ _ _ _) as [stop_idx | e];
    [| destruct Hin].
  destruct (if must_stop _ then _ else _) as [[r | e] st'] eqn:E.
  - assert (Hr : r = canonical).
    { destruct (must_stop _).
      - now apply set_velocity_returns_its_argument in E.
      - now inversion E. }
    subst r. simpl in Hin.
    destruct Hin as [H | [H | []]]; [discriminate H |].
    inversion H; subst lane; clear H.
    unfold deref. rewrite length_map, slice_length.
    change (closest_wp_idx next_waypoint_index_kdtree
              (with_current_pose self msg) msg) with c.
    fold n. assert (0 <= n)%Z by (unfold n; lia).
    clearbody c n.
    unfold Py.clamp, LOOKAHEAD_WPS.
    destruct (Z.ltb_spec (c + 200) 0); destruct (Z.ltb_spec c 0); lia.
  - simpl in Hin. destruct Hin as [H | []]. discriminate H.
Qed.

End Cycle.

(** ** Running the generator *)

Lemma int_exact (v : R) (k : Z) : (0 <= k)%Z -> v = IZR k -> Py.int v = k.
Proof.
  intros Hk ->. unfold Py.int.
  destruct (Rle_dec 0 (IZR k)) as [_ | Hneg].
  - apply ZfloorZ.
  - exfalso. apply Hneg. now apply IZR_le.
Qed.

Lemma floor_exact (v : R) (k : Z) : v = IZR k -> Py.floor v = k.
Proof. intros ->. apply ZfloorZ. Qed.

Lemma distance_adjacent (st : Store) (wps : list loc) (i : Z) (a b : loc) :
  Py.index wps i = Ok a -> Py.index wps (i + 1) = Ok b ->
  distance st wps i (i + 1) =
    Ok (dl (position (pose (obj st a))) (position (pose (obj st b)))).
Proof.
  intros Ha Hb. unfold distance.
  rewrite (range_cons i (i + 1 + 1)) by lia.
  rewrite (range_cons (i + 1) (i + 1 + 1)) by lia.
  rewrite (range_empty (i + 1 + 1) (i + 1 + 1)) by lia.
  simpl. rewrite Ha. simpl. rewrite Hb. simpl.
  f_equal. rewrite dl_same. ring.
Qed.

Lemma set_velocity_stages (wps : list loc) (cv : R) (start stop : Z)
  (st : Store) (ds ramp : list R) :
  Py.comprehension (fun i => distance st wps i (i + 1))
    (Py.range start (stop + 1)) = Ok ds ->
  distribution cv (Py.floor (Py.sum ds)) = Ok ramp ->
  set_velocity_leading_to_stop_point wps cv start stop st =
    match velocity_loop wps ramp ds (Py.range (start + 1) (stop + 1)) 0 [] st
    with
    | (Raise e, st') => (Raise e, st')
    | (Ok _, st') => (Ok wps, st')
    end.
Proof.
  intros Hds Hramp. unfold set_velocity_leading_to_stop_point.
  now rewrite Hds, Hramp.
Qed.

Lemma velocity_loop_step (wps : list loc) (ramp ds : list R) (i : Z)
  (idxs : list Z) (k : Z) (vs : list R) (st : Store) (d v : R) (l : loc) :
  Py.index ds k = Ok d -> Py.index ramp (Py.int d) = Ok v ->
  Py.index wps i = Ok l ->
  velocity_loop wps ramp ds (i :: idxs) k vs st =
    velocity_loop wps ramp ds idxs (k + 1) (vs ++ [v]) (store_velocity st l v).
Proof.
  intros Hd Hv Hl. simpl. rewrite Hd. simpl. rewrite Hv.
  unfold set_waypoint_velocity. now rewrite Hl.
Qed.

(** An empty ramp cannot be sampled: with a truncated total of 0 and at
    least one waypoint to write, the first subscript raises. *)
Lemma empty_ramp_raises (wps : list loc) (cv : R) (start stop : Z)
  (st : Store) (ds : list R) :
  Py.comprehension (fun i => distance st wps i (i + 1))
    (Py.range start (stop + 1)) = Ok ds ->
  Py.floor (Py.sum ds) = 0%Z ->
  (start < stop)%Z ->
  set_velocity_leading_to_stop_point wps cv start stop st
    = (Raise IndexError, st).
Proof.
  intros Hds Hzero Hlt.
  rewrite (set_velocity_stages wps cv start stop st ds []); [| exact Hds |].
  - rewrite (range_cons (start + 1) (stop + 1)) by lia. simpl.
    apply comprehension_length in Hds. rewrite range_length in Hds.
    destruct (index_in_range _ ds 0) as (d & ->); [lia |]. simpl.
    now rewrite index_empty.
  - rewrite Hzero. apply distribution_zero.
Qed.

(** ** What the loop writes *)

Lemma index_In (A : Type) (l : list A) (i : Z) (a : A) :
  Py.index l i = Ok a -> In a l.
Proof.
  unfold Py.index.
  destruct (_ && _)%bool; [| discriminate].
  destruct (nth_error l _) as [a' |] eqn:E; [| discriminate].
  intros H. inversion H; subst. eapply nth_error_In, E.
Qed.

Lemma store_velocity_speed (st : Store) (l l' : loc) (v : R) :
  twist_linear_x (obj (store_velocity st l v) l') =
    if Nat.eqb l' l then v else twist_linear_x (obj st l').
Proof. simpl. now destruct (Nat.eqb l' l). Qed.

Lemma store_velocity_pose (st : Store) (l l' : loc) (v : R) :
  pose (obj (store_velocity st l v) l') = pose (obj st l').
Proof. simpl. now destruct (Nat.eqb l' l). Qed.

(** A speed that is a sample of the ramp stays one: the loop only ever writes
    samples. *)
Lemma velocity_loop_keeps_samples (wps : list loc) (ramp ds : list R)
  (idxs : list Z) (k : Z) (vs : list R) (st st' : Store)
  (r : result (list R)) (l : loc) :
  velocity_loop wps ramp ds idxs k vs st = (r, st') ->
  In (twist_linear_x (obj st l)) ramp ->
  In (twist_linear_x (obj st' l)) ramp.
Proof.
  revert k vs st. induction idxs as [| i idxs IH]; intros k vs st H Hin.
  - simpl in H. now inversion H; subst.
  - simpl in H.
    destruct (Py.index ds k) as [d | e]; simpl in H;
      [| now inversion H; subst].
    destruct (Py.index ramp (Py.int d)) as [v | e] eqn:Ev;
      [| now inversion H; subst].
    unfold set_waypoint_velocity in H.
    destruct (Py.index wps i) as [l0 | e]; [| now inversion H; subst].
    eapply IH; [exact H |].
    rewrite store_velocity_speed.
    destruct (Nat.eqb l l0); [eapply index_In, Ev | exact Hin].
Qed.

(** After a loop that ran to its end, every waypoint it was asked to write
    holds a sample of the ramp. *)
Lemma velocity_loop_writes_samples (wps : list loc) (ramp ds : list R)
  (idxs : list Z) (k : Z) (vs vs' : list R) (st st' : Store) (i : Z)
  (l : loc) :
  velocity_loop wps ramp ds idxs k vs st = (Ok vs', st') ->
  In i idxs -> Py.index wps i = Ok l ->
  In (twist_linear_x (obj st' l)) ramp.
Proof.
  revert k vs st. induction idxs as [| j idxs IH]; intros k vs st H Hi Hl.
  - destruct Hi.
  - simpl in H.
    destruct (Py.index ds k) as [d | e]; simpl in H; [| discriminate].
    destruct (Py.index ramp (Py.int d)) as [v | e] eqn:Ev; [| discriminate].
    unfold set_waypoint_velocity in H.
    destruct (Py.index wps j) as [l0 | e] eqn:El; [| discriminate].
    destruct Hi as [<- | Hi].
    + eapply velocity_loop_keeps_samples; [exact H |].
      rewrite store_velocity_speed.
      rewrite El in Hl. inversion Hl; subst l0.
      rewrite Nat.eqb_refl. eapply index_In, Ev.
    + eapply IH; eassumption.
Qed.

(** The loop never touches a pose. *)
Lemma velocity_loop_keeps_poses (wps : list loc) (ramp ds : list R)
  (idxs : list Z) (k : Z) (vs : list R) (st st' : Store)
  (r : result (list R)) (l : loc) :
  velocity_loop wps ramp ds idxs k vs st = (r, st') ->
  pose (obj st' l) = pose (obj st l).
Proof.
  revert k vs st. induction idxs as [| i idxs IH]; intros k vs st H.
  - simpl in H. now inversion H; subst.
  - simpl in H.
    destruct (Py.index ds k) as [d | e]; simpl in H;
      [| now inversion H; subst].
    destruct (Py.index ramp (Py.int d)) as [v | e];
      [| now inversion H; subst].
    unfold set_waypoint_velocity in H.
    destruct (Py.index wps i) as [l0 | e]; [| now inversion H; subst].
    rewrite (IH _ _ _ H). apply store_velocity_pose.
Qed.

Lemma range_In (a b i : Z) : In i (Py.range a b) <-> (a <= i < b)%Z.
Proof.
  unfold Py.range. rewrite in_map_iff. split.
  - intros (k & <- & Hk). apply in_seq in Hk. lia.
  - intros H. exists (Z.to_nat (i - a)). split; [lia |].
    apply in_seq. lia.
Qed.

(** ** Shape of the ramp *)

Lemma non_increasing_nth (l : list R) :
  (forall i, (S i < List.length l)%nat -> nth (S i) l 0 <= nth i l 0) ->
  non_increasing l.
Proof.
  induction l as [| a l IH]; intros H; [exact I |].
  destruct l as [| b l]; [exact I |].
  split.
  - apply (H 0%nat). simpl. lia.
  - apply IH. intros i Hi. apply (H (S i)). simpl in *. lia.
Qed.

(** At or above the threshold the ramp never rises. *)
Lemma fast_ramp_non_increasing (cv : R) (n : Z) (ramp : list R) :
  VEL_THRESHOLD <= cv -> distribution cv n = Ok ramp -> non_increasing ramp.
Proof.
  intros Hcv Hd. rewrite distribution_fast in Hd by exact Hcv.
  unfold VEL_THRESHOLD in Hcv.
  destruct (Z.lt_ge_cases n 2) as [Hsmall | Hn].
  - unfold Np.linspace in Hd.
    destruct (Z.ltb_spec n 0); [discriminate |].
    destruct (Z.ltb_spec 1 n); [lia |].
    assert (Hn : n = 0%Z \/ n = 1%Z) by lia.
    destruct Hn as [-> | ->]; inversion Hd; exact I.
  - assert (Hlen : List.length ramp = Z.to_nat n).
    { destruct (linspace_length cv 0 n) as (l & Hl & Hlen); [lia |].
      rewrite Hd in Hl. now inversion Hl; subst. }
    apply non_increasing_nth. intros i Hi.
    rewrite (linspace_nth cv 0 n (S i) ramp Hn) by (assumption || lia).
    rewrite (linspace_nth cv 0 n i ramp Hn) by (assumption || lia).
    rewrite S_INR.
    assert (Hpos : 0 < IZR (n - 1)) by (apply IZR_lt; lia).
    assert (Hstep : (0 - cv) / IZR (n - 1) <= 0).
    { unfold Rdiv. rewrite <- (Rmult_0_l (/ IZR (n - 1))).
      apply Rmult_le_compat_r; [| lra].
      left. now apply Rinv_0_lt_compat. }
    nra.
Qed.

(** A ramp of two samples or more per phase ends at 0. *)
Lemma ramp_ends_at_zero (cv : R) (n : Z) (ramp : list R) (d : R) :
  (2 <= n)%Z -> distribution cv n = Ok ramp -> last ramp d = 0.
Proof.
  intros Hn Hd. unfold distribution in Hd.
  destruct (Rlt_dec cv VEL_THRESHOLD).
  - rewrite !linspace_samples in Hd by exact Hn. simpl in Hd.
    inversion Hd; subst ramp. unfold Np.concatenate.
    rewrite app_assoc. apply last_last.
  - rewrite linspace_samples in Hd by exact Hn.
    inversion Hd; subst ramp. apply last_last.
Qed.

(** ** What the generator can and cannot do *)

Lemma index_raises (A : Type) (l : list A) (i : Z) (e : exn) :
  Py.index l i = Raise e -> e = IndexError.
Proof.
  unfold Py.index.
  destruct (_ && _)%bool; [destruct (nth_error l _) |];
    intros H; now inversion H.
Qed.

Lemma distance_loop_raises (st : Store) (wps : list loc) (l : list Z)
  (prev : Z) (acc : R) (e : exn) :
  distance_loop st wps l prev acc = Raise e -> e = IndexError.
Proof.
  revert prev acc. induction l as [| i l IH]; intros prev acc H.
  - discriminate H.
  - simpl in H.
    destruct (Py.index wps prev) as [a | e1] eqn:E1; simpl in H;
      [| inversion H; subst; eapply index_raises, E1].
    destruct (Py.index wps i) as [b | e2] eqn:E2; simpl in H;
      [| inversion H; subst; eapply index_raises, E2].
    eapply IH, H.
Qed.

Lemma distance_loop_nonneg (st : Store) (wps : list loc) (l : list Z)
  (prev : Z) (acc d : R) :
  0 <= acc -> distance_loop st wps l prev acc = Ok d -> 0 <= d.
Proof.
  revert prev acc. induction l as [| i l IH]; intros prev acc Hacc H.
  - simpl in H. inversion H; subst. exact Hacc.
  - simpl in H.
    destruct (Py.index wps prev) as [a | e]; simpl in H; [| discriminate].
    destruct (Py.index wps i) as [b | e]; simpl in H; [| discriminate].
    eapply IH; [| exact H].
    pose proof (dl_nonneg (position (pose (obj st a)))
                  (position (pose (obj st b)))). lra.
Qed.

Lemma fold_plus_nonneg (l : list R) (acc : R) :
  0 <= acc -> Forall (fun d => 0 <= d) l -> 0 <= fold_left Rplus l acc.
Proof.
  revert acc. induction l as [| d l IH]; intros acc Hacc Hl; [exact Hacc |].
  inversion Hl; subst. simpl. apply IH; [lra | assumption].
Qed.

Lemma distances_nonneg (st : Store) (wps : list loc) (l : list Z)
  (ds : list R) :
  Py.comprehension (fun i => distance st wps i (i + 1)) l = Ok ds ->
  Forall (fun d => 0 <= d) ds.
Proof.
  revert ds. induction l as [| i l IH]; intros ds H; simpl in H.
  - inversion H. constructor.
  - destruct (distance st wps i (i + 1)) as [d | e] eqn:Ed; simpl in H;
      [| discriminate].
    destruct (Py.comprehension _ l) as [ds' | e]; simpl in H; [| discriminate].
    inversion H; subst. constructor; [| now apply IH].
    eapply distance_loop_nonneg; [apply Rle_refl | exact Ed].
Qed.

Lemma distances_raise (st : Store) (wps : list loc) (l : list Z) (e : exn) :
  Py.comprehension (fun i => distance st wps i (i + 1)) l = Raise e ->
  e = IndexError.
Proof.
  induction l as [| i l IH]; intros H; simpl in H; [discriminate |].
  destruct (distance st wps i (i + 1)) as [d | e1] eqn:Ed; simpl in H.
  - destruct (Py.comprehension _ l) as [ds' | e2]; simpl in H;
      [discriminate |].
    inversion H; subst. now apply IH.
  - inversion H; subst. eapply distance_loop_raises, Ed.
Qed.

(** The truncated total is never negative, so [np.linspace] is never asked
    for a negative number of samples. *)
Lemma total_distance_nonneg (st : Store) (wps : list loc) (l : list Z)
  (ds : list R) :
  Py.comprehension (fun i => distance st wps i (i + 1)) l = Ok ds ->
  (0 <= Py.floor (Py.sum ds))%Z.
Proof.
  intros H. unfold Py.floor. apply Zfloor_lub.
  apply fold_plus_nonneg; [apply Rle_refl |].
  eapply distances_nonneg, H.
Qed.

Lemma distribution_returns (cv : R) (n : Z) :
  (0 <= n)%Z -> exists ramp, distribution cv n = Ok ramp.
Proof.
  intros Hn. unfold distribution.
  destruct (linspace_length cv VEL_THRESHOLD n Hn) as (r & -> & _).
  destruct (linspace_length VEL_THRESHOLD 0 n Hn) as (f & -> & _).
  destruct (linspace_length cv 0 n Hn) as (l & -> & _).
  destruct (Rlt_dec cv VEL_THRESHOLD); eexists; reflexivity.
Qed.

Lemma velocity_loop_raises (wps : list loc) (ramp ds : list R)
  (idxs : list Z) (k : Z) (vs : list R) (st st' : Store) (e : exn) :
  velocity_loop wps ramp ds idxs k vs st = (Raise e, st') -> e = IndexError.
Proof.
  revert k vs st. induction idxs as [| i idxs IH]; intros k vs st H.
  - discriminate H.
  - simpl in H.
    destruct (Py.index ds k) as [d | e1] eqn:E1; simpl in H;
      [| inversion H; subst; eapply index_raises, E1].
    destruct (Py.index ramp (Py.int d)) as [v | e2] eqn:E2;
      [| inversion H; subst; eapply index_raises, E2].
    unfold set_waypoint_velocity in H.
    destruct (Py.index wps i) as [l0 | e3] eqn:E3;
      [| inversion H; subst; eapply index_raises, E3].
    eapply IH, H.
Qed.

(** The generator either returns or raises [IndexError]. *)
Lemma set_velocity_raises (wps : list loc) (cv : R) (start stop : Z)
  (st st' : Store) (e : exn) :
  set_velocity_leading_to_stop_point wps cv start stop st = (Raise e, st') ->
  e = IndexError.
Proof.
  unfold set_velocity_leading_to_stop_point.
  destruct (Py.comprehension _ _) as [ds | e1] eqn:Hds.
  - destruct (distribution_returns cv (Py.floor (Py.sum ds))) as (ramp & ->).
    { eapply total_distance_nonneg, Hds. }
    destruct (velocity_loop _ _ _ _ _ _ _) as [[vs | e2] st''] eqn:Hloop;
      [discriminate |].
    intros H. inversion H; subst. eapply velocity_loop_raises, Hloop.
  - intros H. inversion H; subst. eapply distances_raise, Hds.
Qed.

(** The generator writes speeds only: every pose stays as it was. *)
Lemma set_velocity_keeps_poses (wps : list loc) (cv : R) (start stop : Z)
  (st st' : Store) (r : result (list loc)) (l : loc) :
  set_velocity_leading_to_stop_point wps cv start stop st = (r, st') ->
  pose (obj st' l) = pose (obj st l).
Proof.
  unfold set_velocity_leading_to_stop_point.
  destruct (Py.comprehension _ _) as [ds | e1];
    [| intros H; now inversion H; subst].
  destruct (distribution _ _) as [ramp | e2];
    [| intros H; now inversion H; subst].
  destruct (velocity_loop _ _ _ _ _ _ _) as [[vs | e3] st''] eqn:Hloop;
    intros H; inversion H; subst;
    eapply velocity_loop_keeps_poses, Hloop.
Qed.

(** ** The generator on the widening track

    Vehicle at rest at index 0, stop line at index 2; the waypoints lie at
    x = 0, 1, 3, 4. *)

Lemma widening_distances :
  Py.comprehension (fun i => distance widening_store widening_refs i (i + 1))
    (Py.range 0 (2 + 1)) = Ok [1; 2; 1].
Proof.
  change (Py.range 0 (2 + 1)) with [0; 1; 2]%Z.
  unfold Py.comprehension.
  rewrite (distance_adjacent widening_store widening_refs 0 0%nat 1%nat)
    by reflexivity.
  rewrite (distance_adjacent widening_store widening_refs 1 1%nat 2%nat)
    by reflexivity.
  rewrite (distance_adjacent widening_store widening_refs 2 2%nat 3%nat)
    by reflexivity.
  change (obj widening_store 0%nat) with (on_axis 0 10).
  change (obj widening_store 1%nat) with (on_axis 1 10).
  change (obj widening_store 2%nat) with (on_axis 3 10).
  change (obj widening_store 3%nat) with (on_axis 4 10).
  rewrite !dl_on_axis by lra.
  replace (1 - 0) with 1 by lra.
  replace (3 - 1) with 2 by lra.
  replace (4 - 3) with 1 by lra.
  reflexivity.
Qed.

Lemma slow_ramp :
  distribution 0 4 = Ok [0; 5 / 3; 10 / 3; 5; 5; 10 / 3; 5 / 3; 0].
Proof.
  apply (distribution_slow 0 4 [0; 5 / 3; 10 / 3; 5] [5; 10 / 3; 5 / 3; 0]).
  - unfold VEL_THRESHOLD. lra.
  - rewrite linspace_samples by lia. unfold VEL_THRESHOLD.
    change (seq 0 (Z.to_nat 4 - 1)) with [0; 1; 2]%nat.
    change (4 - 1)%Z with 3%Z. simpl.
    replace (0 * ((5 - 0) / 3) + 0) with 0 by lra.
    replace (1 * ((5 - 0) / 3) + 0) with (5 / 3) by lra.
    replace ((1 + 1) * ((5 - 0) / 3) + 0) with (10 / 3) by lra.
    reflexivity.
  - rewrite linspace_samples by lia. unfold VEL_THRESHOLD.
    change (seq 0 (Z.to_nat 4 - 1)) with [0; 1; 2]%nat.
    change (4 - 1)%Z with 3%Z. simpl.
    replace (0 * ((0 - 5) / 3) + 5) with 5 by lra.
    replace (1 * ((0 - 5) / 3) + 5) with (10 / 3) by lra.
    replace ((1 + 1) * ((0 - 5) / 3) + 5) with (5 / 3) by lra.
    reflexivity.
Qed.

Lemma widening_decelerate :
  set_velocity_leading_to_stop_point widening_refs 0 0 2 widening_store =
    (Ok widening_refs,
     store_velocity (store_velocity widening_store 1%nat (5 / 3)) 2%nat
       (10 / 3)).
Proof.
  rewrite (set_velocity_stages widening_refs 0 0 2 widening_store
             [1; 2; 1] [0; 5 / 3; 10 / 3; 5; 5; 10 / 3; 5 / 3; 0]).
  - change (Py.range (0 + 1) (2 + 1)) with [1; 2]%Z.
    rewrite (velocity_loop_step widening_refs
               [0; 5 / 3; 10 / 3; 5; 5; 10 / 3; 5 / 3; 0] [1; 2; 1] 1
               [2%Z] 0 [] widening_store 1 (5 / 3) 1%nat); try reflexivity.
    + rewrite (velocity_loop_step widening_refs
                 [0; 5 / 3; 10 / 3; 5; 5; 10 / 3; 5 / 3; 0] [1; 2; 1] 2
                 [] (0 + 1) _ _ 2 (10 / 3) 2%nat); try reflexivity.
      rewrite (int_exact 2 2); [reflexivity | lia | reflexivity].
    + rewrite (int_exact 1 1); [reflexivity | lia | reflexivity].
  - exact widening_distances.
  - rewrite (floor_exact _ 4); [exact slow_ramp |].
    unfold Py.sum. simpl. lra.
Qed.

(** On the widening track the cumulative distances of the waypoints at
    indices 1 and 2 truncate to 1 and 3, and the samples of the slow ramp at
    those positions, 5/3 and 5, rise as well. *)
Lemma slow_ramp_rises_along_the_track :
  cumulative_distance_index widening_store widening_refs 0 1 = Ok 1%Z /\
  cumulative_distance_index widening_store widening_refs 0 2 = Ok 3%Z /\
  Py.index [0; 5 / 3; 10 / 3; 5; 5; 10 / 3; 5 / 3; 0] 1 = Ok (5 / 3) /\
  Py.index [0; 5 / 3; 10 / 3; 5; 5; 10 / 3; 5 / 3; 0] 3 = Ok 5.
Proof.
  split; [| split; [| split; reflexivity]].
  - unfold cumulative_distance_index.
    change (distance widening_store widening_refs 0 1)
      with (distance widening_store widening_refs 0 (0 + 1)).
    rewrite (distance_adjacent widening_store widening_refs 0 0%nat 1%nat)
      by reflexivity.
    change (obj widening_store 0%nat) with (on_axis 0 10).
    change (obj widening_store 1%nat) with (on_axis 1 10).
    rewrite dl_on_axis by lra. unfold bind.
    f_equal. apply int_exact; [lia | lra].
  - unfold cumulative_distance_index, distance.
    change (Py.range 0 (2 + 1)) with [0; 1; 2]%Z.
    unfold distance_loop.
    change (Py.index widening_refs 0) with (@Ok loc 0%nat).
    change (Py.index widening_refs 1) with (@Ok loc 1%nat).
    change (Py.index widening_refs 2) with (@Ok loc 2%nat).
    unfold bind.
    change (obj widening_store 0%nat) with (on_axis 0 10).
    change (obj widening_store 1%nat) with (on_axis 1 10).
    change (obj widening_store 2%nat) with (on_axis 3 10).
    rewrite dl_same, !dl_on_axis by lra.
    f_equal. apply int_exact; [lia | lra].
Qed.

(** ** The generator on the uneven track

    Vehicle at index 0 with speed 8, stop line at index 2; the waypoints lie
    at x = 0, 2, 3, 5. *)

Lemma uneven_distances :
  Py.comprehension (fun i => distance uneven_store uneven_refs i (i + 1))
    (Py.range 0 (2 + 1)) = Ok [2; 1; 2].
Proof.
  change (Py.range 0 (2 + 1)) with [0; 1; 2]%Z.
  unfold Py.comprehension.
  rewrite (distance_adjacent uneven_store uneven_refs 0 0%nat 1%nat)
    by reflexivity.
  rewrite (distance_adjacent uneven_store uneven_refs 1 1%nat 2%nat)
    by reflexivity.
  rewrite (distance_adjacent uneven_store uneven_refs 2 2%nat 3%nat)
    by reflexivity.
  change (obj uneven_store 0%nat) with (on_axis 0 10).
  change (obj uneven_store 1%nat) with (on_axis 2 10).
  change (obj uneven_store 2%nat) with (on_axis 3 10).
  change (obj uneven_store 3%nat) with (on_axis 5 10).
  rewrite !dl_on_axis by lra.
  replace (2 - 0) with 2 by lra.
  replace (3 - 2) with 1 by lra.
  replace (5 - 3) with 2 by lra.
  reflexivity.
Qed.

Lemma uneven_ramp : distribution 8 5 = Ok [8; 6; 4; 2; 0].
Proof.
  rewrite distribution_fast by (unfold VEL_THRESHOLD; lra).
  rewrite linspace_samples by lia.
  change (seq 0 (Z.to_nat 5 - 1)) with [0; 1; 2; 3]%nat.
  change (5 - 1)%Z with 4%Z.
  simpl. repeat f_equal; lra.
Qed.

Lemma uneven_total : Py.floor (Py.sum [2; 1; 2]) = 5%Z.
Proof. apply floor_exact. unfold Py.sum. simpl. lra. Qed.

Lemma uneven_decelerate :
  set_velocity_leading_to_stop_point uneven_refs 8 0 2 uneven_store =
    (Ok uneven_refs,
     store_velocity (store_velocity uneven_store 1%nat 4) 2%nat 6).
Proof.
  rewrite (set_velocity_stages uneven_refs 8 0 2 uneven_store
             [2; 1; 2] [8; 6; 4; 2; 0]).
  - change (Py.range (0 + 1) (2 + 1)) with [1; 2]%Z.
    rewrite (velocity_loop_step uneven_refs [8; 6; 4; 2; 0] [2; 1; 2] 1
               [2%Z] 0 [] uneven_store 2 4 1%nat); try reflexivity.
    + rewrite (velocity_loop_step uneven_refs [8; 6; 4; 2; 0] [2; 1; 2] 2
                 [] (0 + 1) _ _ 1 6 2%nat); try reflexivity.
      rewrite (int_exact 1 1); [reflexivity | lia | reflexivity].
    + rewrite (int_exact 2 2); [reflexivity | lia | reflexivity].
  - exact uneven_distances.
  - rewrite uneven_total. exact uneven_ramp.
Qed.

(** C1, as the specification words it, fails.  With the vehicle at rest on
    the widening track the speeds from the vehicle index to the stop-line
    index come out as 10, 5/3, 10/3: below the threshold the ramp first
    rises, and the speed at the stop line is not 0.  With the vehicle at
    speed 8 on the uneven track they come out as 10, 4, 6: the ramp falls,
    but the samples are not taken in order, and the speed at the stop line is
    6. *)
Lemma decelerate_profile_refuted :
  (exists st',
     set_velocity_leading_to_stop_point widening_refs 0 0 2 widening_store
       = (Ok widening_refs, st') /\
     speeds st' (Py.slice widening_refs 0 (2 + 1)) = [10; 5 / 3; 10 / 3] /\
     ~ non_increasing (speeds st' (Py.slice widening_refs 0 (2 + 1))) /\
     twist_linear_x (obj st' 2%nat) <> 0) /\
  (exists st',
     set_velocity_leading_to_stop_point uneven_refs 8 0 2 uneven_store
       = (Ok uneven_refs, st') /\
     speeds st' (Py.slice uneven_refs 0 (2 + 1)) = [10; 4; 6] /\
     ~ non_increasing (speeds st' (Py.slice uneven_refs 0 (2 + 1))) /\
     twist_linear_x (obj st' 2%nat) <> 0).
Proof.
  split.
  - eexists. split; [exact widening_decelerate |].
    split; [reflexivity |]. split.
    + change (speeds _ _) with [10; 5 / 3; 10 / 3]. simpl. lra.
    + change (twist_linear_x _) with (10 / 3). lra.
  - eexists. split; [exact uneven_decelerate |].
    split; [reflexivity |]. split.
    + change (speeds _ _) with [10; 4; 6]. simpl. lra.
    + change (twist_linear_x _) with 6. lra.
Qed.

(** C1, amended: in a cycle that decelerates, every speed written to a
    waypoint after the vehicle index and up to the stop-line index is a sample
    of the cycle's ramp; that ramp ends at 0 once the truncated total distance
    is 2 or more, and it never rises when the current speed is at or above
    the threshold. *)
Theorem decelerate_writes_ramp_samples (wps : list loc) (cv : R)
  (start stop : Z) (st st' : Store) (r : list loc) :
  set_velocity_leading_to_stop_point wps cv start stop st = (Ok r, st') ->
  exists ds ramp,
    Py.comprehension (fun i => distance st wps i (i + 1))
      (Py.range start (stop + 1)) = Ok ds /\
    distribution cv (Py.floor (Py.sum ds)) = Ok ramp /\
    (forall i l, (start < i <= stop)%Z -> Py.index wps i = Ok l ->
       In (twist_linear_x (obj st' l)) ramp) /\
    ((2 <= Py.floor (Py.sum ds))%Z -> forall d, last ramp d = 0) /\
    (VEL_THRESHOLD <= cv -> non_increasing ramp).
Proof.
  unfold set_velocity_leading_to_stop_point.
  destruct (Py.comprehension _ _) as [ds | e] eqn:Hds; [| discriminate].
  destruct (distribution _ _) as [ramp | e] eqn:Hramp; [| discriminate].
  destruct (velocity_loop _ _ _ _ _ _ _) as [[vs | e] st''] eqn:Hloop;
    [| discriminate].
  intros H. inversion H; subst r st''; clear H.
  exists ds, ramp. split; [reflexivity |]. split; [exact Hramp |].
  split; [| split].
  - intros i l Hi Hl.
    eapply velocity_loop_writes_samples; [exact Hloop | | exact Hl].
    apply range_In. lia.
  - intros Hn d. eapply ramp_ends_at_zero; eassumption.
  - intros Hcv. eapply fast_ramp_non_increasing; eassumption.
Qed.

Lemma decelerate_writes_ramp_samples_witness :
  exists ds ramp,
    Py.comprehension (fun i => distance uneven_store uneven_refs i (i + 1))
      (Py.range 0 (2 + 1)) = Ok ds /\
    distribution 8 (Py.floor (Py.sum ds)) = Ok ramp /\
    (forall i l, (0 < i <= 2)%Z -> Py.index uneven_refs i = Ok l ->
       In (twist_linear_x
             (obj (store_velocity (store_velocity uneven_store 1%nat 4)
                     2%nat 6) l)) ramp) /\
    ((2 <= Py.floor (Py.sum ds))%Z -> forall d, last ramp d = 0) /\
    (VEL_THRESHOLD <= 8 -> non_increasing ramp).
Proof.
  apply (decelerate_writes_ramp_samples uneven_refs 8 0 2 uneven_store
           (store_velocity (store_velocity uneven_store 1%nat 4) 2%nat 6)
           uneven_refs).
  exact uneven_decelerate.
Defined.

Lemma uneven_cumulative_index :
  cumulative_distance_index uneven_store uneven_refs 0 2 = Ok 3%Z.
Proof.
  unfold cumulative_distance_index, distance.
  change (Py.range 0 (2 + 1)) with [0; 1; 2]%Z.
  unfold distance_loop.
  change (Py.index uneven_refs 0) with (@Ok loc 0%nat).
  change (Py.index uneven_refs 1) with (@Ok loc 1%nat).
  change (Py.index uneven_refs 2) with (@Ok loc 2%nat).
  unfold bind.
  change (obj uneven_store 0%nat) with (on_axis 0 10).
  change (obj uneven_store 1%nat) with (on_axis 2 10).
  change (obj uneven_store 2%nat) with (on_axis 3 10).
  rewrite dl_same, !dl_on_axis by lra.
  f_equal. apply int_exact; [lia | lra].
Qed.

Lemma uneven_segment_index :
  (d <- distance uneven_store uneven_refs 1 2 ;; Ok (Py.int d)) = Ok 1%Z.
Proof.
  change (distance uneven_store uneven_refs 1 2)
    with (distance uneven_store uneven_refs 1 (1 + 1)).
  rewrite (distance_adjacent uneven_store uneven_refs 1 1%nat 2%nat)
    by reflexivity.
  change (obj uneven_store 1%nat) with (on_axis 2 10).
  change (obj uneven_store 2%nat) with (on_axis 3 10).
  rewrite dl_on_axis by lra. unfold bind.
  f_equal. apply int_exact; [lia | lra].
Qed.

(** C2 at a concrete input.  On the uneven track the waypoint at index 2 lies
    at cumulative distance 3 from the start, and the sample at position 3 of
    the ramp is 2; the code gives it the sample at position 1, the truncated
    length of the one segment before it, which is 6. *)
Theorem sample_index_is_segment_length :
  exists ramp st',
    distribution 8 5 = Ok ramp /\
    set_velocity_leading_to_stop_point uneven_refs 8 0 2 uneven_store
      = (Ok uneven_refs, st') /\
    cumulative_distance_index uneven_store uneven_refs 0 2 = Ok 3%Z /\
    Py.index ramp 3 = Ok 2 /\
    (d <- distance uneven_store uneven_refs 1 2 ;; Ok (Py.int d)) = Ok 1%Z /\
    Py.index ramp 1 = Ok 6 /\
    twist_linear_x (obj st' 2%nat) = 6.
Proof.
  exists [8; 6; 4; 2; 0]. eexists.
  split; [exact uneven_ramp |].
  split; [exact uneven_decelerate |].
  split; [exact uneven_cumulative_index |].
  split; [reflexivity |].
  split; [exact uneven_segment_index |].
  split; reflexivity.
Qed.

(** C5 at a concrete input.  After the track is loaded all four speeds are
    10; the generator hands back the very references of the canonical track,
    and read through them the canonical speeds are now 10, 4, 6, 10. *)
Theorem canonical_track_is_overwritten :
  let o := loaded [] uneven_track in
  waypoints (fields o) = Some uneven_refs /\
  speeds (store o) uneven_refs = [10; 10; 10; 10] /\
  exists new_waypoints st',
    set_velocity_leading_to_stop_point uneven_refs 8 0 2 (store o)
      = (Ok new_waypoints, st') /\
    new_waypoints = uneven_refs /\
    map pose (deref st' uneven_refs) = map pose (deref (store o) uneven_refs) /\
    speeds st' uneven_refs = [10; 4; 6; 10] /\
    speeds st' uneven_refs <> speeds (store o) uneven_refs.
Proof.
  split; [reflexivity |]. split; [reflexivity |].
  eexists. eexists. split; [exact uneven_decelerate |].
  split; [reflexivity |]. split; [reflexivity |]. split; [reflexivity |].
  change (speeds (store_velocity _ _ _) uneven_refs) with [10; 4; 6; 10].
  change (speeds _ uneven_refs) with [10; 10; 10; 10].
  intros H. inversion H. lra.
Qed.

(** ** The generator on the dense track

    Vehicle at index 0, stop line at index 1; the waypoints lie a quarter of a
    unit apart. *)

Lemma dense_distances :
  Py.comprehension (fun i => distance dense_store dense_refs i (i + 1))
    (Py.range 0 (1 + 1)) = Ok [1 / 4; 1 / 4].
Proof.
  change (Py.range 0 (1 + 1)) with [0; 1]%Z.
  unfold Py.comprehension.
  rewrite (distance_adjacent dense_store dense_refs 0 0%nat 1%nat)
    by reflexivity.
  rewrite (distance_adjacent dense_store dense_refs 1 1%nat 2%nat)
    by reflexivity.
  change (obj dense_store 0%nat) with (on_axis 0 10).
  change (obj dense_store 1%nat) with (on_axis (1 / 4) 10).
  change (obj dense_store 2%nat) with (on_axis (1 / 2) 10).
  rewrite !dl_on_axis by lra.
  replace (1 / 4 - 0) with (1 / 4) by lra.
  replace (1 / 2 - 1 / 4) with (1 / 4) by lra.
  reflexivity.
Qed.

(** C3 at a concrete input.  The arc length from the start index to the stop
    index is a quarter of a unit and truncates to 0, as does the total the
    code computes; the ramp is empty and the first subscript into it raises
    [IndexError], with nothing written. *)
Theorem empty_ramp_is_indexed :
  (d <- distance dense_store dense_refs 0 1 ;; Ok (Py.floor d)) = Ok 0%Z /\
  distribution 8 0 = Ok [] /\
  set_velocity_leading_to_stop_point dense_refs 8 0 1 dense_store
    = (Raise IndexError, dense_store).
Proof.
  split; [| split].
  - change (distance dense_store dense_refs 0 1)
      with (distance dense_store dense_refs 0 (0 + 1)).
    rewrite (distance_adjacent dense_store dense_refs 0 0%nat 1%nat)
      by reflexivity.
    change (obj dense_store 0%nat) with (on_axis 0 10).
    change (obj dense_store 1%nat) with (on_axis (1 / 4) 10).
    rewrite dl_on_axis by lra. unfold bind, Py.floor.
    f_equal. apply Zfloor_eq. lra.
  - apply distribution_zero.
  - apply (empty_ramp_raises dense_refs 8 0 1 dense_store [1 / 4; 1 / 4]).
    + exact dense_distances.
    + unfold Py.floor, Py.sum. simpl. apply Zfloor_eq. lra.
    + lia.
Qed.

(** ** Cycles and the stored signal *)

Section Signal.

Variable next_waypoint_index_kdtree : Pose -> option (list Waypoint) -> Z.
Variable kdtree_query : list (R * R) -> R * R -> Z.

Local Abbreviation cycle :=
  (pose_cb next_waypoint_index_kdtree kdtree_query).
Local Abbreviation vehicle_index :=
  (closest_wp_idx next_waypoint_index_kdtree).
Local Abbreviation stop_index :=
  (stop_line_waypoint_idx next_waypoint_index_kdtree kdtree_query).

(** A cycle that decelerates and whose generator returns. *)
Lemma decelerate_cycle_returns (self : Self) (msg : Pose) (st st' : Store)
  (canonical new_waypoints : list loc) (stop_idx : Z) :
  waypoints self = Some canonical ->
  stop_index self msg = Ok stop_idx ->
  must_stop self = true ->
  set_velocity_leading_to_stop_point canonical (current_velocity self)
    (vehicle_index self msg) stop_idx st = (Ok new_waypoints, st') ->
  cycle self msg st =
    {| status := Ok tt;
       fields := with_current_traffic_light (with_current_pose self msg) None;
       store := st';
       sent := [Stop_line_waypoint stop_idx;
                Final_waypoints
                  (deref st'
                     (Py.slice new_waypoints (vehicle_index self msg)
                        (vehicle_index self msg + LOOKAHEAD_WPS)))] |}.
Proof.
  intros Hw Hs Hm Hg. unfold pose_cb. rewrite Hw.
  change (stop_line_waypoint_idx next_waypoint_index_kdtree kdtree_query
            (with_current_pose self msg) msg) with (stop_index self msg).
  rewrite Hs.
  change (must_stop (with_current_pose self msg)) with (must_stop self).
  rewrite Hm.
  change (closest_wp_idx next_waypoint_index_kdtree
            (with_current_pose self msg) msg) with (vehicle_index self msg).
  change (current_velocity (with_current_pose self msg))
    with (current_velocity self).
  rewrite Hg. reflexivity.
Qed.

(** A cycle that decelerates and whose generator raises: the handler ends
    before line 143. *)
Lemma decelerate_cycle_raises (self : Self) (msg : Pose) (st st' : Store)
  (canonical : list loc) (stop_idx : Z) (e : exn) :
  waypoints self = Some canonical ->
  stop_index self msg = Ok stop_idx ->
  must_stop self = true ->
  set_velocity_leading_to_stop_point canonical (current_velocity self)
    (vehicle_index self msg) stop_idx st = (Raise e, st') ->
  cycle self msg st =
    {| status := Raise e;
       fields := with_current_pose self msg;
       store := st';
       sent := [Stop_line_waypoint stop_idx] |}.
Proof.
  intros Hw Hs Hm Hg. unfold pose_cb. rewrite Hw.
  change (stop_line_waypoint_idx next_waypoint_index_kdtree kdtree_query
            (with_current_pose self msg) msg) with (stop_index self msg).
  rewrite Hs.
  change (must_stop (with_current_pose self msg)) with (must_stop self).
  rewrite Hm.
  change (closest_wp_idx next_waypoint_index_kdtree
            (with_current_pose self msg) msg) with (vehicle_index self msg).
  change (current_velocity (with_current_pose self msg))
    with (current_velocity self).
  rewrite Hg. reflexivity.
Qed.

(** A cycle that returns on a loaded track leaves no signal stored. *)
Lemma completed_cycle_resets (self : Self) (msg : Pose) (st : Store) :
  waypoints self <> None ->
  status (cycle self msg st) = Ok tt ->
  current_traffic_light (fields (cycle self msg st)) = None.
Proof.
  intros Hw. unfold pose_cb.
  destruct (waypoints self) as [canonical |]; [| contradiction].
  destruct (stop_line_waypoint_idx _ _ _ _) as [s | e]; [| discriminate].
  destruct (if must_stop _ then _ else _) as [[r | e] st'];
    [reflexivity | discriminate].
Qed.

(** No handler but the signal handler stores a signal. *)
Lemma handle_keeps_no_signal (self : Self) (st : Store) (m : Msg) :
  current_traffic_light self = None -> no_signal m ->
  current_traffic_light
    (fields (handle next_waypoint_index_kdtree kdtree_query self st m)) = None.
Proof.
  intros Hn Hm. destruct m as [p | ws | tl | v]; simpl.
  - unfold pose_cb.
    destruct (waypoints self); [| exact Hn].
    destruct (stop_line_waypoint_idx _ _ _ _); [| exact Hn].
    destruct (if must_stop _ then _ else _) as [[r | e] st'];
      [reflexivity | exact Hn].
  - unfold waypoints_cb. destruct (alloc st ws). exact Hn.
  - destruct Hm.
  - exact Hn.
Qed.

Lemma spin_keeps_no_signal (ms : list Msg) (self : Self) (st : Store) :
  current_traffic_light self = None -> Forall no_signal ms ->
  current_traffic_light
    (fst (spin next_waypoint_index_kdtree kdtree_query self st ms)) = None.
Proof.
  revert self st. induction ms as [| m ms IH]; intros self st Hn Hms.
  - exact Hn.
  - inversion Hms as [| ? ? Hm Hms']; subst. simpl.
    apply IH; [| exact Hms'].
    now apply handle_keeps_no_signal.
Qed.

(** With no signal stored the cycle cruises: it writes nothing, and what it
    publishes as the window is cut from the canonical track. *)
Lemma cruise_cycle (self : Self) (msg : Pose) (st : Store) :
  current_traffic_light self = None ->
  mode self = CRUISE /\
  store (cycle self msg st) = st /\
  forall lane, In (Final_waypoints lane) (sent (cycle self msg st)) ->
    exists canonical,
      waypoints self = Some canonical /\
      lane = deref st
               (Py.slice canonical (vehicle_index self msg)
                  (vehicle_index self msg + LOOKAHEAD_WPS)).
Proof.
  intros Hn.
  assert (Hm : must_stop self = false) by (unfold must_stop; now rewrite Hn).
  split; [unfold mode; now rewrite Hm |].
  unfold pose_cb.
  destruct (waypoints self) as [canonical |].
  - destruct (stop_line_waypoint_idx _ _ _ _) as [s | e].
    + change (must_stop (with_current_pose self msg)) with (must_stop self).
      rewrite Hm. simpl. split; [reflexivity |].
      intros lane [H | [H | []]]; [discriminate H |].
      inversion H. now exists canonical.
    + simpl. split; [reflexivity |]. intros lane [].
  - simpl. split; [reflexivity |]. intros lane [].
Qed.

(** X20: after a pose update on a loaded track that returned, in particular
    one that decelerated for a RED reading, no signal is stored; whatever
    arrives next short of a new signal reading, the following pose update
    cruises: it writes no speed and its window is cut from the canonical
    track. *)
Theorem completed_cycle_consumes_signal (self : Self) (msg msg' : Pose)
  (st : Store) (ms : list Msg) :
  waypoints self <> None ->
  status (cycle self msg st) = Ok tt ->
  Forall no_signal ms ->
  let o := cycle self msg st in
  let later :=
    spin next_waypoint_index_kdtree kdtree_query (fields o) (store o) ms in
  current_traffic_light (fields o) = None /\
  mode (fst later) = CRUISE /\
  store (cycle (fst later) msg' (snd later)) = snd later /\
  forall lane,
    In (Final_waypoints lane) (sent (cycle (fst later) msg' (snd later))) ->
    exists canonical,
      waypoints (fst later) = Some canonical /\
      lane = deref (snd later)
               (Py.slice canonical (vehicle_index (fst later) msg')
                  (vehicle_index (fst later) msg' + LOOKAHEAD_WPS)).
Proof.
  intros Hw Hok Hms o later.
  assert (Hreset : current_traffic_light (fields o) = None)
    by now apply completed_cycle_resets.
  split; [exact Hreset |].
  apply cruise_cycle. unfold later.
  now apply spin_keeps_no_signal.
Qed.

End Signal.

(** ** Cycles on the unit track *)

Lemma ceil_exact (v : R) (k : Z) : v = IZR k -> Zceil v = k.
Proof. intros ->. apply Zceil_eq. lra. Qed.

Lemma ahead_at (k : Z) (tree : option (list Waypoint)) :
  ahead_on_unit_axis (at_x (IZR k)) tree = k.
Proof. unfold ahead_on_unit_axis. simpl. now apply ceil_exact. Qed.

Lemma unit_distances :
  Py.comprehension
    (fun i => distance (snd approaching) unit_refs i (i + 1))
    (Py.range 0 (2 + 1)) = Ok [1; 1; 1].
Proof.
  change (Py.range 0 (2 + 1)) with [0; 1; 2]%Z.
  unfold Py.comprehension.
  rewrite (distance_adjacent (snd approaching) unit_refs 0 0%nat 1%nat)
    by reflexivity.
  rewrite (distance_adjacent (snd approaching) unit_refs 1 1%nat 2%nat)
    by reflexivity.
  rewrite (distance_adjacent (snd approaching) unit_refs 2 2%nat 3%nat)
    by reflexivity.
  change (obj (snd approaching) 0%nat) with (on_axis 0 10).
  change (obj (snd approaching) 1%nat) with (on_axis 1 10).
  change (obj (snd approaching) 2%nat) with (on_axis 2 10).
  change (obj (snd approaching) 3%nat) with (on_axis 3 10).
  rewrite !dl_on_axis by lra.
  replace (1 - 0) with 1 by lra.
  replace (2 - 1) with 1 by lra.
  replace (3 - 2) with 1 by lra.
  reflexivity.
Qed.

Lemma unit_ramp : distribution 8 3 = Ok [8; 4; 0].
Proof.
  rewrite distribution_fast by (unfold VEL_THRESHOLD; lra).
  rewrite linspace_samples by lia.
  change (seq 0 (Z.to_nat 3 - 1)) with [0; 1]%nat.
  change (3 - 1)%Z with 2%Z.
  simpl.
  replace (0 * ((0 - 8) / 2) + 8) with 8 by lra.
  replace (1 * ((0 - 8) / 2) + 8) with 4 by lra.
  reflexivity.
Qed.

Lemma unit_decelerate :
  set_velocity_leading_to_stop_point unit_refs 8 0 2 (snd approaching) =
    (Ok unit_refs,
     store_velocity (store_velocity (snd approaching) 1%nat 4) 2%nat 4).
Proof.
  rewrite (set_velocity_stages unit_refs 8 0 2 (snd approaching)
             [1; 1; 1] [8; 4; 0]).
  - change (Py.range (0 + 1) (2 + 1)) with [1; 2]%Z.
    rewrite (velocity_loop_step unit_refs [8; 4; 0] [1; 1; 1] 1
               [2%Z] 0 [] (snd approaching) 1 4 1%nat); try reflexivity.
    + rewrite (velocity_loop_step unit_refs [8; 4; 0] [1; 1; 1] 2
                 [] (0 + 1) _ _ 1 4 2%nat); try reflexivity.
      rewrite (int_exact 1 1); [reflexivity | lia | reflexivity].
    + rewrite (int_exact 1 1); [reflexivity | lia | reflexivity].
  - exact unit_distances.
  - rewrite (floor_exact _ 3); [exact unit_ramp |].
    unfold Py.sum. simpl. lra.
Qed.

(** The whole cycle of the scenario: vehicle at index 0 with speed 8, stop
    line at index 2, RED. *)
Lemma approaching_cycle :
  pose_cb ahead_on_unit_axis only_stop_line (fst approaching) (at_x 0)
    (snd approaching) =
    {| status := Ok tt;
       fields := with_current_traffic_light
                   (with_current_pose (fst approaching) (at_x 0)) None;
       store := store_velocity (store_velocity (snd approaching) 1%nat 4)
                  2%nat 4;
       sent :=
         [Stop_line_waypoint 2;
          Final_waypoints
            (deref
               (store_velocity (store_velocity (snd approaching) 1%nat 4)
                  2%nat 4)
               (Py.slice unit_refs
                  (closest_wp_idx ahead_on_unit_axis (fst approaching)
                     (at_x 0))
                  (closest_wp_idx ahead_on_unit_axis (fst approaching)
                     (at_x 0) + LOOKAHEAD_WPS)))] |}.
Proof.
  apply (decelerate_cycle_returns ahead_on_unit_axis only_stop_line
           (fst approaching) (at_x 0) (snd approaching) _ unit_refs unit_refs
           2).
  - reflexivity.
  - unfold stop_line_waypoint_idx. simpl. f_equal.
    apply ceil_exact. reflexivity.
  - reflexivity.
  - unfold closest_wp_idx. rewrite (ahead_at 0). exact unit_decelerate.
Qed.

(** The cycle at the end of the short track: vehicle at index 0, stop line
    at index 1, the last waypoint, RED. *)
Lemma track_end_cycle (self : Self) :
  waypoints self = waypoints (fst at_track_end) ->
  waypoints_kdtree self = waypoints_kdtree (fst at_track_end) ->
  stop_line_positions self = stop_line_positions (fst at_track_end) ->
  current_traffic_light self = Some RED ->
  pose_cb ahead_on_unit_axis only_stop_line self (at_x 0) (snd at_track_end) =
    {| status := Raise IndexError;
       fields := with_current_pose self (at_x 0);
       store := snd at_track_end;
       sent := [Stop_line_waypoint 1] |}.
Proof.
  intros Hw Hk Hs Hl.
  apply (decelerate_cycle_raises ahead_on_unit_axis only_stop_line self
           (at_x 0) (snd at_track_end) (snd at_track_end) [0; 1]%nat 1).
  - exact Hw.
  - unfold stop_line_waypoint_idx. rewrite Hs. simpl. f_equal.
    apply ceil_exact. reflexivity.
  - unfold must_stop. now rewrite Hl.
  - unfold closest_wp_idx. rewrite (ahead_at 0). reflexivity.
Qed.

(** C8 at a concrete input.  At the end of the short track the cycle takes
    the RED reading, enters the generator and raises there ([distance] reads
    past the last waypoint), so the reset of line 143 is not reached; the
    reading is still stored, and the next pose update, with no new reading,
    decelerates again. *)
Lemma failed_cycle_keeps_signal :
  let self := fst at_track_end in
  let st := snd at_track_end in
  let o := pose_cb ahead_on_unit_axis only_stop_line self (at_x 0) st in
  let o' :=
    pose_cb ahead_on_unit_axis only_stop_line (fields o) (at_x 0) (store o) in
  waypoints self = Some [0; 1]%nat /\
  current_traffic_light self = Some RED /\
  mode self = DECELERATE /\
  status o = Raise IndexError /\
  current_traffic_light (fields o) = Some RED /\
  mode (fields o) = DECELERATE /\
  status o' = Raise IndexError.
Proof.
  intros self st o o'.
  assert (Ho : o = {| status := Raise IndexError;
                      fields := with_current_pose self (at_x 0);
                      store := st;
                      sent := [Stop_line_waypoint 1] |})
    by (apply track_end_cycle; reflexivity).
  assert (Ho' : status o' = Raise IndexError).
  { unfold o'. rewrite Ho. simpl.
    rewrite track_end_cycle; reflexivity. }
  rewrite Ho. repeat split; try reflexivity. exact Ho'.
Qed.

Lemma completed_cycle_consumes_signal_witness :
  let self := fst approaching in
  let o :=
    pose_cb ahead_on_unit_axis only_stop_line self (at_x 0) (snd approaching)
  in
  let later :=
    spin ahead_on_unit_axis only_stop_line (fields o) (store o)
      [Current_velocity 7] in
  (current_traffic_light self = Some RED /\ mode self = DECELERATE) /\
  current_traffic_light (fields o) = None /\
  mode (fst later) = CRUISE /\
  store (pose_cb ahead_on_unit_axis only_stop_line (fst later) (at_x 1)
           (snd later)) = snd later /\
  forall lane,
    In (Final_waypoints lane)
      (sent (pose_cb ahead_on_unit_axis only_stop_line (fst later) (at_x 1)
               (snd later))) ->
    exists canonical,
      waypoints (fst later) = Some canonical /\
      lane = deref (snd later)
               (Py.slice canonical
                  (closest_wp_idx ahead_on_unit_axis (fst later) (at_x 1))
                  (closest_wp_idx ahead_on_unit_axis (fst later) (at_x 1)
                   + LOOKAHEAD_WPS)).
Proof.
  intros self o later. split; [split; reflexivity |].
  apply (completed_cycle_consumes_signal ahead_on_unit_axis only_stop_line
           self (at_x 0) (at_x 1) (snd approaching) [Current_velocity 7]).
  - discriminate.
  - unfold self. rewrite approaching_cycle. reflexivity.
  - repeat constructor.
Defined.

Lemma pose_before_track_raises_witness :
  let o :=
    pose_cb ahead_on_unit_axis only_stop_line (init [(2, 0)]) (at_x 0)
      empty_store in
  status o = Raise AttributeError /\
  sent o = [] /\
  fields o = init [(2, 0)] /\
  store o = empty_store.
Proof.
  apply (pose_before_track_raises ahead_on_unit_axis only_stop_line
           (init [(2, 0)]) (at_x 0) empty_store).
  reflexivity.
Defined.

Lemma stop_line_behind_is_cruise_witness :
  let self := fst passed in
  let st := snd passed in
  let o := pose_cb ahead_on_unit_axis only_stop_line self (at_x 2) st in
  let c := closest_wp_idx ahead_on_unit_axis self (at_x 2) in
  mode self = DECELERATE /\
  o = pose_cb ahead_on_unit_axis only_stop_line
        (with_current_traffic_light self None) (at_x 2) st /\
  status o = Ok tt /\
  store o = st /\
  sent o = [Stop_line_waypoint 0;
            Final_waypoints
              (deref st (Py.slice unit_refs c (c + LOOKAHEAD_WPS)))].
Proof.
  intros self st o c. split; [reflexivity |].
  apply (stop_line_behind_is_cruise ahead_on_unit_axis only_stop_line self
           (at_x 2) st unit_refs 0).
  - reflexivity.
  - unfold stop_line_waypoint_idx. simpl. f_equal.
    apply ceil_exact. reflexivity.
  - unfold closest_wp_idx. rewrite (ahead_at 2). lia.
Defined.

Lemma window_bound_witness :
  let self := fst approaching in
  let o :=
    pose_cb ahead_on_unit_axis only_stop_line self (at_x 0) (snd approaching)
  in
  let c := closest_wp_idx ahead_on_unit_axis self (at_x 0) in
  exists lane,
    In (Final_waypoints lane) (sent o) /\
    (Z.of_nat (List.length lane) <= LOOKAHEAD_WPS)%Z /\
    ((0 <= c <= 4)%Z ->
     Z.of_nat (List.length lane) = Z.min LOOKAHEAD_WPS (4 - c)).
Proof.
  intros self o c. eexists. split.
  - unfold o, self. rewrite approaching_cycle. simpl. right. left.
    reflexivity.
  - apply (window_bound ahead_on_unit_axis only_stop_line self (at_x 0)
             (snd approaching) unit_refs).
    + reflexivity.
    + unfold self. rewrite approaching_cycle. simpl. right. left. reflexivity.
Defined.

(** * Further properties of the generator *)

Lemma index_bounds (A : Type) (l : list A) (i : Z) (a : A) :
  Py.index l i = Ok a ->
  (- Z.of_nat (List.length l) <= i < Z.of_nat (List.length l))%Z.
Proof.
  unfold Py.index. cbv zeta.
  destruct (Z.ltb_spec i 0) as [Hneg | Hpos].
  - destruct (Z.leb_spec 0 (i + Z.of_nat (List.length l))) as [H0 | H0];
      destruct (Z.ltb_spec (i + Z.of_nat (List.length l))
                  (Z.of_nat (List.length l))) as [H1 | H1];
      simpl; intros Hx; try discriminate Hx; lia.
  - destruct (Z.leb_spec 0 i) as [H0 | H0];
      destruct (Z.ltb_spec i (Z.of_nat (List.length l))) as [H1 | H1];
      simpl; intros Hx; try discriminate Hx; lia.
Qed.

Lemma index_nth_error (A : Type) (l : list A) (i : Z) (a : A) :
  (0 <= i)%Z -> Py.index l i = Ok a -> nth_error l (Z.to_nat i) = Some a.
Proof.
  intros Hi. unfold Py.index.
  destruct (Z.ltb_spec i 0) as [Hneg | _]; [lia |].
  destruct (_ && _)%bool; [| discriminate].
  destruct (nth_error l (Z.to_nat i)); intros H; now inversion H.
Qed.

Lemma index_past_end (A : Type) (l : list A) (i : Z) :
  (Z.of_nat (List.length l) <= i)%Z -> Py.index l i = Raise IndexError.
Proof.
  intros H. destruct (Py.index l i) as [a | e] eqn:E.
  - apply index_bounds in E. lia.
  - f_equal. eapply index_raises, E.
Qed.

(** In a list without repetition two subscripts from the front that give the
    same element are the same subscript. *)
Lemma index_injective (A : Type) (l : list A) (i j : Z) (a : A) :
  NoDup l -> (0 <= i)%Z -> (0 <= j)%Z ->
  Py.index l i = Ok a -> Py.index l j = Ok a -> i = j.
Proof.
  intros Hnd Hi Hj Ha Hb.
  pose proof (index_bounds _ _ _ _ Ha) as Bi.
  apply index_nth_error in Ha; [| exact Hi].
  apply index_nth_error in Hb; [| exact Hj].
  assert (Z.to_nat i = Z.to_nat j).
  { apply (proj1 (NoDup_nth_error l) Hnd); [lia | congruence]. }
  lia.
Qed.

Lemma comprehension_app (A B : Type) (f : A -> result B) (l1 l2 : list A) :
  Py.comprehension f (l1 ++ l2) =
    (bs1 <- Py.comprehension f l1 ;;
     bs2 <- Py.comprehension f l2 ;;
     Ok (bs1 ++ bs2)).
Proof.
  induction l1 as [| a l1 IH]; simpl.
  - destruct (Py.comprehension f l2); reflexivity.
  - destruct (f a) as [b | e]; simpl; [| reflexivity].
    rewrite IH.
    destruct (Py.comprehension f l1) as [bs1 | e]; simpl; [| reflexivity].
    destruct (Py.comprehension f l2); reflexivity.
Qed.

Lemma comprehension_returns (A B : Type) (f : A -> result B) (l : list A) :
  Forall (fun a => exists b, f a = Ok b) l ->
  exists bs, Py.comprehension f l = Ok bs.
Proof.
  induction 1 as [| a l (b & Hb) _ (bs & Hbs)]; simpl.
  - now exists [].
  - rewrite Hb, Hbs. simpl. now eexists.
Qed.

(** The loop leaves alone every object it is not asked to write. *)
Lemma velocity_loop_frame (wps : list loc) (ramp ds : list R)
  (idxs : list Z) (k : Z) (vs : list R) (st st' : Store)
  (r : result (list R)) (l : loc) :
  velocity_loop wps ramp ds idxs k vs st = (r, st') ->
  (forall i, In i idxs -> Py.index wps i <> Ok l) ->
  obj st' l = obj st l.
Proof.
  revert k vs st. induction idxs as [| i idxs IH]; intros k vs st H Hout.
  - simpl in H. now inversion H; subst.
  - simpl in H.
    destruct (Py.index ds k) as [d | e]; simpl in H;
      [| now inversion H; subst].
    destruct (Py.index ramp (Py.int d)) as [v | e];
      [| now inversion H; subst].
    unfold set_waypoint_velocity in H.
    destruct (Py.index wps i) as [l0 | e] eqn:El; [| now inversion H; subst].
    rewrite (IH _ _ _ H) by (intros j Hj; apply Hout; now right).
    simpl. destruct (Nat.eqb_spec l l0) as [-> | _]; [| reflexivity].
    exfalso. apply (Hout i); [now left | exact El].
Qed.

Lemma velocity_loop_next_loc (wps : list loc) (ramp ds : list R)
  (idxs : list Z) (k : Z) (vs : list R) (st st' : Store)
  (r : result (list R)) :
  velocity_loop wps ramp ds idxs k vs st = (r, st') ->
  next_loc st' = next_loc st.
Proof.
  revert k vs st. induction idxs as [| i idxs IH]; intros k vs st H.
  - simpl in H. now inversion H; subst.
  - simpl in H.
    destruct (Py.index ds k) as [d | e]; simpl in H;
      [| now inversion H; subst].
    destruct (Py.index ramp (Py.int d)) as [v | e];
      [| now inversion H; subst].
    unfold set_waypoint_velocity in H.
    destruct (Py.index wps i) as [l0 | e]; [| now inversion H; subst].
    now rewrite (IH _ _ _ H).
Qed.

Lemma set_velocity_next_loc (wps : list loc) (cv : R) (start stop : Z)
  (st st' : Store) (r : result (list loc)) :
  set_velocity_leading_to_stop_point wps cv start stop st = (r, st') ->
  next_loc st' = next_loc st.
Proof.
  unfold set_velocity_leading_to_stop_point.
  destruct (Py.comprehension _ _) as [ds | e1];
    [| intros H; now inversion H; subst].
  destruct (distribution _ _) as [ramp | e2];
    [| intros H; now inversion H; subst].
  destruct (velocity_loop _ _ _ _ _ _ _) as [[vs | e3] st''] eqn:Hloop;
    intros H; inversion H; subst;
    eapply velocity_loop_next_loc, Hloop.
Qed.

(** X1: the generator ends in one of two ways: it returns the list it was
    given, or it raises [IndexError].  No other exception leaves it; in
    particular [np.linspace] is never asked for a negative number of
    samples. *)
Theorem generator_returns_or_raises_index_error (wps : list loc) (cv : R)
  (start stop : Z) (st : Store) :
  let r := fst (set_velocity_leading_to_stop_point wps cv start stop st) in
  r = Ok wps \/ r = Raise IndexError.
Proof.
  intros r. unfold r.
  destruct (set_velocity_leading_to_stop_point wps cv start stop st)
    as [[new_waypoints | e] st'] eqn:E; simpl.
  - left. f_equal. eapply set_velocity_returns_its_argument, E.
  - right. f_equal. eapply set_velocity_raises, E.
Qed.

(** X2: on a track whose references are all different, the generator writes
    nothing outside the indices after the vehicle index and up to the
    stop-line index: the object at any other index is exactly as before,
    whether the generator returned or raised. *)
Theorem generator_writes_only_between (wps : list loc) (cv : R)
  (start stop j : Z) (st st' : Store) (r : result (list loc)) (l : loc) :
  set_velocity_leading_to_stop_point wps cv start stop st = (r, st') ->
  NoDup wps -> (0 <= start)%Z -> (0 <= j)%Z ->
  ~ (start < j <= stop)%Z ->
  Py.index wps j = Ok l ->
  obj st' l = obj st l.
Proof.
  intros Hrun Hnd Hstart Hj Hout Hl.
  unfold set_velocity_leading_to_stop_point in Hrun.
  destruct (Py.comprehension _ _) as [ds | e1];
    [| now inversion Hrun; subst].
  destruct (distribution _ _) as [ramp | e2];
    [| now inversion Hrun; subst].
  destruct (velocity_loop _ _ _ _ _ _ _) as [[vs | e3] st''] eqn:Hloop;
    inversion Hrun; subst; clear Hrun.
  all: eapply velocity_loop_frame; [exact Hloop |].
  all: intros i Hi Hil; apply range_In in Hi.
  all: assert (i = j) by (eapply index_injective; eauto; lia); lia.
Qed.

Lemma generator_writes_only_between_witness :
  obj (store_velocity (store_velocity uneven_store 1%nat 4) 2%nat 6) 3%nat
    = obj uneven_store 3%nat.
Proof.
  apply (generator_writes_only_between uneven_refs 8 0 2 3 uneven_store
           (store_velocity (store_velocity uneven_store 1%nat 4) 2%nat 6)
           (Ok uneven_refs) 3%nat).
  - exact uneven_decelerate.
  - apply (seq_NoDup 4 0).
  - lia.
  - lia.
  - lia.
  - reflexivity.
Defined.

Lemma distance_past_end (st : Store) (wps : list loc) (i : Z) :
  (0 <= i)%Z -> (i + 1 = Z.of_nat (List.length wps))%Z ->
  distance st wps i (i + 1) = Raise IndexError.
Proof.
  intros Hi Hlen. unfold distance.
  rewrite (range_cons i (i + 1 + 1)) by lia.
  rewrite (range_cons (i + 1) (i + 1 + 1)) by lia.
  rewrite (range_empty (i + 1 + 1) (i + 1 + 1)) by lia.
  simpl.
  destruct (index_in_range _ wps i) as (a & ->); [lia |]. simpl.
  rewrite (index_past_end _ wps (i + 1)) by lia. reflexivity.
Qed.

(** X3: when the stop-line index is the last index of the track the
    generator raises [IndexError] before it writes anything: the distances
    of lines 81 and 82 include the segment after the stop line, which reads
    one waypoint past the end. *)
Theorem generator_raises_at_last_waypoint (wps : list loc) (cv : R)
  (start stop : Z) (st : Store) :
  (0 <= start)%Z -> (start <= stop)%Z ->
  (stop + 1 = Z.of_nat (List.length wps))%Z ->
  set_velocity_leading_to_stop_point wps cv start stop st
    = (Raise IndexError, st).
Proof.
  intros Hstart Hle Hlast. unfold set_velocity_leading_to_stop_point.
  rewrite (range_snoc start stop) by lia.
  rewrite comprehension_app.
  destruct (comprehension_returns _ _
              (fun i => distance st wps i (i + 1)) (Py.range start stop))
    as (bs & ->).
  - apply Forall_forall. intros i Hi. apply range_In in Hi.
    apply distance_returns; lia.
  - simpl. rewrite distance_past_end by lia. reflexivity.
Qed.

Lemma generator_raises_at_last_waypoint_witness :
  set_velocity_leading_to_stop_point [0; 1]%nat 8 0 1
    (store (loaded [] short_track))
    = (Raise IndexError, store (loaded [] short_track)).
Proof.
  apply (generator_raises_at_last_waypoint [0; 1]%nat 8 0 1).
  - lia.
  - lia.
  - reflexivity.
Defined.

(** X4: with the stop-line index equal to the vehicle index, and at least
    one waypoint after it, the generator returns without writing anything,
    whatever the speed. *)
Theorem generator_at_stop_index_writes_nothing (wps : list loc) (cv : R)
  (start : Z) (st : Store) :
  (0 <= start)%Z -> (start + 1 < Z.of_nat (List.length wps))%Z ->
  set_velocity_leading_to_stop_point wps cv start start st = (Ok wps, st).
Proof.
  intros Hstart Hlen. unfold set_velocity_leading_to_stop_point.
  destruct (comprehension_returns _ _
              (fun i => distance st wps i (i + 1))
              (Py.range start (start + 1)))
    as (ds & Hds).
  - apply Forall_forall. intros i Hi. apply range_In in Hi.
    apply distance_returns; lia.
  - rewrite Hds.
    destruct (distribution_returns cv (Py.floor (Py.sum ds))) as (ramp & ->).
    { eapply total_distance_nonneg, Hds. }
    rewrite (range_empty (start + 1) (start + 1)) by lia. reflexivity.
Qed.

Lemma generator_at_stop_index_writes_nothing_witness :
  set_velocity_leading_to_stop_point uneven_refs 8 1 1 uneven_store
    = (Ok uneven_refs, uneven_store).
Proof.
  apply (generator_at_stop_index_writes_nothing uneven_refs 8 1 uneven_store).
  - lia.
  - simpl. lia.
Defined.

(** ** Bounds on the ramp *)

(** Every sample of [np.linspace] lies between its two ends. *)
Lemma linspace_between (a b : R) (n : Z) (l : list R) (v : R) :
  Np.linspace a b n = Ok l -> In v l -> Rmin a b <= v <= Rmax a b.
Proof.
  intros Hl Hv.
  assert (Ha : Rmin a b <= a <= Rmax a b)
    by (split; [apply Rmin_l | apply Rmax_l]).
  assert (Hb : Rmin a b <= b <= Rmax a b)
    by (split; [apply Rmin_r | apply Rmax_r]).
  destruct (Z.lt_ge_cases n 2) as [Hsmall | Hn].
  - unfold Np.linspace in Hl.
    destruct (Z.ltb_spec n 0) as [Hneg | Hpos]; [discriminate |].
    destruct (Z.ltb_spec 1 n) as [Hbig | _]; [lia |].
    assert (Hcase : n = 0%Z \/ n = 1%Z) by lia.
    destruct Hcase as [-> | ->]; inversion Hl; subst l; clear Hl.
    + destruct Hv.
    + destruct Hv as [<- | []]. simpl.
      replace (0 * (b - a) + a) with a by ring. exact Ha.
  - rewrite linspace_samples in Hl by exact Hn.
    inversion Hl; subst l; clear Hl.
    apply in_app_or in Hv. destruct Hv as [Hv | [<- | []]]; [| exact Hb].
    apply in_map_iff in Hv. destruct Hv as (i & <- & Hi).
    apply in_seq in Hi.
    assert (Hpos : 0 < IZR (n - 1)) by (apply IZR_lt; lia).
    assert (Hi0 : 0 <= INR i) by apply pos_INR.
    assert (Hi1 : INR i <= IZR (n - 1)).
    { rewrite INR_IZR_INZ. apply IZR_le. lia. }
    set (t := INR i / IZR (n - 1)).
    assert (Ht : 0 <= t <= 1).
    { unfold t. split.
      - apply Rmult_le_pos; [exact Hi0 |].
        left. now apply Rinv_0_lt_compat.
      - apply (Rmult_le_reg_r (IZR (n - 1))); [exact Hpos |].
        unfold Rdiv. rewrite Rmult_assoc, Rinv_l by lra. lra. }
    replace (INR i * ((b - a) / IZR (n - 1)) + a) with (a + t * (b - a))
      by (unfold t; field; lra).
    destruct Ha as [Ha1 Ha2]. destruct Hb as [Hb1 Hb2].
    destruct (Rle_dec a b) as [Hab | Hba]; split; nra.
Qed.

(** For a vehicle that is not reversing every sample of the ramp is a speed
    between 0 and the larger of the current speed and the threshold. *)
Lemma ramp_between (cv : R) (n : Z) (ramp : list R) (v : R) :
  0 <= cv -> distribution cv n = Ok ramp -> In v ramp ->
  0 <= v <= Rmax cv VEL_THRESHOLD.
Proof.
  intros Hcv Hd Hv. unfold distribution in Hd.
  assert (Hth : 0 <= VEL_THRESHOLD) by (unfold VEL_THRESHOLD; lra).
  pose proof (Rmax_l cv VEL_THRESHOLD) as Hl.
  pose proof (Rmax_r cv VEL_THRESHOLD) as Hr.
  destruct (Rlt_dec cv VEL_THRESHOLD) as [Hslow | Hfast].
  - destruct (Np.linspace cv VEL_THRESHOLD n) as [rising | e] eqn:Er;
      simpl in Hd; [| discriminate].
    destruct (Np.linspace VEL_THRESHOLD 0 n) as [falling | e] eqn:Ef;
      simpl in Hd; [| discriminate].
    inversion Hd; subst ramp; clear Hd.
    apply in_app_or in Hv. destruct Hv as [Hv | Hv].
    + pose proof (linspace_between _ _ _ _ _ Er Hv) as [H1 H2].
      rewrite Rmin_left in H1 by lra. lra.
    + pose proof (linspace_between _ _ _ _ _ Ef Hv) as [H1 H2].
      rewrite Rmin_right in H1 by lra.
      rewrite Rmax_left in H2 by lra. lra.
  - pose proof (linspace_between _ _ _ _ _ Hd Hv) as [H1 H2].
    rewrite Rmin_right in H1 by lra.
    rewrite Rmax_left in H2 by lra. lra.
Qed.

(** X5: for a current speed that is not negative, every speed the generator
    writes lies between 0 and the larger of the current speed and the
    threshold. *)
Theorem written_speeds_are_bounded (wps : list loc) (cv : R)
  (start stop : Z) (st st' : Store) (r : list loc) :
  0 <= cv ->
  set_velocity_leading_to_stop_point wps cv start stop st = (Ok r, st') ->
  forall i l, (start < i <= stop)%Z -> Py.index wps i = Ok l ->
    0 <= twist_linear_x (obj st' l) <= Rmax cv VEL_THRESHOLD.
Proof.
  intros Hcv Hrun i l Hi Hl.
  unfold set_velocity_leading_to_stop_point in Hrun.
  destruct (Py.comprehension _ _) as [ds | e1]; [| discriminate].
  destruct (distribution _ _) as [ramp | e2] eqn:Hramp; [| discriminate].
  destruct (velocity_loop _ _ _ _ _ _ _) as [[vs | e3] st''] eqn:Hloop;
    [| discriminate].
  inversion Hrun; subst; clear Hrun.
  eapply ramp_between; [exact Hcv | exact Hramp |].
  eapply velocity_loop_writes_samples; [exact Hloop | | exact Hl].
  apply range_In. lia.
Qed.

Lemma written_speeds_are_bounded_witness :
  0 <= twist_linear_x
         (obj (store_velocity (store_velocity uneven_store 1%nat 4)
                 2%nat 6) 2%nat)
    <= Rmax 8 VEL_THRESHOLD.
Proof.
  apply (written_speeds_are_bounded uneven_refs 8 0 2 uneven_store
           (store_velocity (store_velocity uneven_store 1%nat 4) 2%nat 6)
           uneven_refs) with (i := 2%Z).
  - lra.
  - exact uneven_decelerate.
  - lia.
  - reflexivity.
Defined.

(** X6: at or above the threshold the ramp is a single run of
    [total_distance] samples.  With two samples or more it falls linearly
    from the current speed to 0; with exactly one sample it is the current
    speed alone, so it does not reach 0. *)
Theorem fast_ramp_is_one_linear_run (cv : R) (n : Z) :
  VEL_THRESHOLD <= cv -> (0 <= n)%Z ->
  exists ramp,
    distribution cv n = Ok ramp /\
    List.length ramp = Z.to_nat n /\
    (n = 1%Z -> ramp = [cv]) /\
    ((2 <= n)%Z ->
     (forall i, (i < Z.to_nat n)%nat ->
        nth i ramp 0 = cv - INR i * (cv / IZR (n - 1))) /\
     nth 0 ramp 0 = cv /\
     nth (Z.to_nat n - 1) ramp 0 = 0).
Proof.
  intros Hcv Hn.
  destruct (linspace_length cv 0 n Hn) as (ramp & Hramp & Hlen).
  exists ramp. rewrite distribution_fast by exact Hcv.
  split; [exact Hramp |]. split; [exact Hlen |]. split.
  - intros ->. rewrite linspace_single in Hramp.
    inversion Hramp. f_equal. ring.
  - intros Hn2.
    assert (Hdiv : IZR (n - 1) <> 0) by (apply not_0_IZR; lia).
    assert (Hformula : forall i, (i < Z.to_nat n)%nat ->
              nth i ramp 0 = cv - INR i * (cv / IZR (n - 1))).
    { intros i Hi. rewrite (linspace_nth cv 0 n i ramp Hn2 Hi Hramp).
      field. exact Hdiv. }
    split; [exact Hformula |]. split.
    + rewrite Hformula by lia. simpl. lra.
    + rewrite Hformula by lia.
      replace (INR (Z.to_nat n - 1)) with (IZR (n - 1)).
      * field. exact Hdiv.
      * rewrite INR_IZR_INZ. f_equal. lia.
Qed.

Lemma fast_ramp_is_one_linear_run_witness :
  exists ramp,
    distribution 8 5 = Ok ramp /\
    List.length ramp = 5%nat /\
    nth 0 ramp 0 = 8 /\
    nth 4 ramp 0 = 0.
Proof.
  destruct (fast_ramp_is_one_linear_run 8 5) as (ramp & Hd & Hl & _ & Hs).
  - unfold VEL_THRESHOLD. lra.
  - lia.
  - exists ramp. destruct Hs as (_ & H0 & H4); [lia |].
    repeat split; assumption.
Defined.

Lemma velocity_loop_sample_missing (wps : list loc) (ramp ds : list R)
  (i : Z) (idxs : list Z) (k : Z) (vs : list R) (st : Store) (d : R)
  (e : exn) :
  Py.index ds k = Ok d -> Py.index ramp (Py.int d) = Raise e ->
  velocity_loop wps ramp ds (i :: idxs) k vs st = (Raise e, st).
Proof.
  intros Hd He. simpl. rewrite Hd. simpl. now rewrite He.
Qed.

(** X7: at or above the threshold, when the first segment alone is as long,
    once truncated, as the truncated total, the first subscript into the ramp
    is past its end: the generator raises [IndexError] and writes nothing. *)
Theorem overlong_first_segment_raises (wps : list loc) (cv : R)
  (start stop : Z) (st : Store) (d0 : R) (rest : list R) :
  VEL_THRESHOLD <= cv -> (start < stop)%Z ->
  Py.comprehension (fun i => distance st wps i (i + 1))
    (Py.range start (stop + 1)) = Ok (d0 :: rest) ->
  (Py.floor (Py.sum (d0 :: rest)) <= Py.int d0)%Z ->
  set_velocity_leading_to_stop_point wps cv start stop st
    = (Raise IndexError, st).
Proof.
  intros Hcv Hlt Hds Hlong.
  pose proof (total_distance_nonneg _ _ _ _ Hds) as Htotal.
  destruct (linspace_length cv 0 (Py.floor (Py.sum (d0 :: rest))) Htotal)
    as (ramp & Hramp & Hlen).
  rewrite (set_velocity_stages wps cv start stop st (d0 :: rest) ramp);
    [| exact Hds | now rewrite distribution_fast].
  rewrite (range_cons (start + 1) (stop + 1)) by lia.
  rewrite (velocity_loop_sample_missing wps ramp (d0 :: rest) (start + 1)
             _ 0 [] st d0 IndexError); [reflexivity | |].
  - apply index_nonneg; [lia | reflexivity].
  - apply index_past_end. lia.
Qed.

Lemma long_first_distances :
  Py.comprehension
    (fun i => distance long_first_store long_first_refs i (i + 1))
    (Py.range 0 (1 + 1)) = Ok [2; 1 / 4].
Proof.
  change (Py.range 0 (1 + 1)) with [0; 1]%Z.
  unfold Py.comprehension.
  rewrite (distance_adjacent long_first_store long_first_refs 0 0%nat 1%nat)
    by reflexivity.
  rewrite (distance_adjacent long_first_store long_first_refs 1 1%nat 2%nat)
    by reflexivity.
  change (obj long_first_store 0%nat) with (on_axis 0 10).
  change (obj long_first_store 1%nat) with (on_axis 2 10).
  change (obj long_first_store 2%nat) with (on_axis (9 / 4) 10).
  rewrite !dl_on_axis by lra.
  replace (2 - 0) with 2 by lra.
  replace (9 / 4 - 2) with (1 / 4) by lra.
  reflexivity.
Qed.

Lemma overlong_first_segment_raises_witness :
  set_velocity_leading_to_stop_point long_first_refs 8 0 1 long_first_store
    = (Raise IndexError, long_first_store).
Proof.
  apply (overlong_first_segment_raises long_first_refs 8 0 1 long_first_store
           2 [1 / 4]).
  - unfold VEL_THRESHOLD. lra.
  - lia.
  - exact long_first_distances.
  - rewrite (int_exact 2 2) by (lia || reflexivity).
    unfold Py.floor, Py.sum. simpl.
    rewrite (Zfloor_eq 2) by lra. lia.
Defined.

(** * Further properties of [distance] *)

Lemma distance_loop_reads (st : Store) (wps : list loc) (l : list Z)
  (prev : Z) (acc d : R) (i : Z) :
  distance_loop st wps l prev acc = Ok d -> In i l ->
  exists b, Py.index wps i = Ok b.
Proof.
  revert prev acc. induction l as [| j l IH]; intros prev acc H Hi.
  - destruct Hi.
  - simpl in H.
    destruct (Py.index wps prev) as [a | e]; simpl in H; [| discriminate].
    destruct (Py.index wps j) as [b | e] eqn:Ej; simpl in H; [| discriminate].
    destruct Hi as [<- | Hi]; [now exists b |].
    eapply IH; eassumption.
Qed.

(** X8: for [0 <= wp1 <= wp2], [distance] returns exactly when [wp2] is an
    index of the list; otherwise it raises [IndexError]. *)
Theorem distance_returns_exactly_in_bounds (st : Store) (w : list loc)
  (i k : Z) :
  (0 <= i)%Z -> (i <= k)%Z ->
  ((k < Z.of_nat (List.length w))%Z -> exists d, distance st w i k = Ok d) /\
  ((Z.of_nat (List.length w) <= k)%Z ->
   distance st w i k = Raise IndexError).
Proof.
  intros Hi Hik. split.
  - intros Hk. now apply distance_returns.
  - intros Hk. destruct (distance st w i k) as [d | e] eqn:E.
    + exfalso. unfold distance in E.
      destruct (distance_loop_reads st w _ i 0 d k E) as (b & Hb).
      { apply range_In. lia. }
      apply index_bounds in Hb. lia.
    + f_equal. eapply distance_loop_raises, E.
Qed.

Lemma distance_returns_exactly_in_bounds_witness :
  (exists d, distance uneven_store uneven_refs 1 3 = Ok d) /\
  distance uneven_store uneven_refs 1 4 = Raise IndexError.
Proof.
  split.
  - apply (distance_returns_exactly_in_bounds uneven_store uneven_refs 1 3);
      simpl; lia.
  - apply (distance_returns_exactly_in_bounds uneven_store uneven_refs 1 4);
      simpl; lia.
Defined.

(** X9: a distance that [distance] returns is never negative. *)
Theorem distance_is_never_negative (st : Store) (w : list loc) (i k : Z)
  (d : R) :
  distance st w i k = Ok d -> 0 <= d.
Proof.
  intros H. eapply distance_loop_nonneg; [apply Rle_refl | exact H].
Qed.

Lemma distance_is_never_negative_witness :
  0 <= dl (position (pose (obj uneven_store 1%nat)))
         (position (pose (obj uneven_store 2%nat))).
Proof.
  apply (distance_is_never_negative uneven_store uneven_refs 1 (1 + 1)).
  apply (distance_adjacent uneven_store uneven_refs 1 1%nat 2%nat);
    reflexivity.
Defined.

Lemma distance_loop_reads_poses_only (st st' : Store) (wps : list loc)
  (l : list Z) (prev : Z) (acc : R) :
  (forall o, pose (obj st' o) = pose (obj st o)) ->
  distance_loop st' wps l prev acc = distance_loop st wps l prev acc.
Proof.
  intros Hposes. revert prev acc.
  induction l as [| i l IH]; intros prev acc; [reflexivity |].
  simpl.
  destruct (Py.index wps prev) as [a | e]; simpl; [| reflexivity].
  destruct (Py.index wps i) as [b | e]; simpl; [| reflexivity].
  rewrite !Hposes. apply IH.
Qed.

(** X10: the generator does not change any distance: measured along any
    list of references, between any two indices, [distance] gives the same
    answer after the generator has run as before, whether it returned or
    raised. *)
Theorem distances_survive_the_generator (wps : list loc) (cv : R)
  (start stop : Z) (st st' : Store) (r : result (list loc))
  (w : list loc) (i k : Z) :
  set_velocity_leading_to_stop_point wps cv start stop st = (r, st') ->
  distance st' w i k = distance st w i k.
Proof.
  intros Hrun. unfold distance.
  apply distance_loop_reads_poses_only.
  intros o. eapply set_velocity_keeps_poses, Hrun.
Qed.

Lemma distances_survive_the_generator_witness :
  distance (store_velocity (store_velocity uneven_store 1%nat 4) 2%nat 6)
    uneven_refs 0 3
  = distance uneven_store uneven_refs 0 3.
Proof.
  apply (distances_survive_the_generator uneven_refs 8 0 2 uneven_store
           (store_velocity (store_velocity uneven_store 1%nat 4) 2%nat 6)
           (Ok uneven_refs) uneven_refs 0 3).
  exact uneven_decelerate.
Defined.

(** * Further properties of the handlers *)

Lemma alloc_deref (st : Store) (ws : list Waypoint) :
  deref (snd (alloc st ws)) (fst (alloc st ws)) = ws.
Proof.
  unfold alloc, deref. simpl.
  set (g := fun l : loc =>
              if (next_loc st <=? l)%nat
              then nth (l - next_loc st) ws (obj st l)
              else obj st l).
  apply (nth_ext _ _ (g 0%nat) (g 0%nat)).
  - now rewrite length_map, length_seq.
  - intros n Hn. rewrite length_map, length_seq in Hn.
    rewrite map_nth, seq_nth by exact Hn. unfold g.
    destruct (Nat.leb_spec (next_loc st) (next_loc st + n)) as [_ | Hlt];
      [| lia].
    replace (next_loc st + n - next_loc st)%nat with n by lia.
    apply nth_indep. exact Hn.
Qed.

Lemma alloc_keeps_old (st : Store) (ws : list Waypoint) (l : loc) :
  (l < next_loc st)%nat -> obj (snd (alloc st ws)) l = obj st l.
Proof.
  intros Hl. unfold alloc. simpl.
  destruct (Nat.leb_spec (next_loc st) l) as [Hge | _]; [lia | reflexivity].
Qed.

Lemma alloc_fresh (st : Store) (ws : list Waypoint) :
  NoDup (fst (alloc st ws)) /\
  Forall (fun l => (next_loc st <= l < next_loc (snd (alloc st ws)))%nat)
    (fst (alloc st ws)).
Proof.
  unfold alloc. simpl. split; [apply seq_NoDup |].
  apply Forall_forall. intros l Hl. apply in_seq in Hl. lia.
Qed.

Section Handlers.

Variable next_waypoint_index_kdtree : Pose -> option (list Waypoint) -> Z.
Variable kdtree_query : list (R * R) -> R * R -> Z.

Local Abbreviation cycle :=
  (pose_cb next_waypoint_index_kdtree kdtree_query).
Local Abbreviation vehicle_index :=
  (closest_wp_idx next_waypoint_index_kdtree).
Local Abbreviation stop_index :=
  (stop_line_waypoint_idx next_waypoint_index_kdtree kdtree_query).
Local Abbreviation deliver :=
  (handle next_waypoint_index_kdtree kdtree_query).
Local Abbreviation run :=
  (spin next_waypoint_index_kdtree kdtree_query).

(** What a pose update leaves as it was: the configuration, the track, the
    index and the speed; no object is allocated and no pose is written. *)
Lemma cycle_frame (self : Self) (msg : Pose) (st : Store) :
  let o := cycle self msg st in
  stop_line_positions (fields o) = stop_line_positions self /\
  waypoints (fields o) = waypoints self /\
  waypoints_kdtree (fields o) = waypoints_kdtree self /\
  current_velocity (fields o) = current_velocity self /\
  next_loc (store o) = next_loc st /\
  forall l, pose (obj (store o) l) = pose (obj st l).
Proof.
  unfold pose_cb.
  destruct (waypoints self) as [canonical |] eqn:Hw;
    [| simpl; now rewrite Hw].
  destruct (stop_line_waypoint_idx _ _ _ _) as [s | e];
    [| simpl; now rewrite Hw].
  destruct (if must_stop _ then _ else _) as [r st'] eqn:E.
  assert (Hst : next_loc st' = next_loc st /\
                forall l, pose (obj st' l) = pose (obj st l)).
  { destruct (must_stop _).
    - split; [eapply set_velocity_next_loc, E |].
      intros l. eapply set_velocity_keeps_poses, E.
    - inversion E; subst. now split. }
  destruct r as [new_waypoints | e]; simpl; now rewrite Hw.
Qed.

Lemma deliver_keeps_consistent (stop_lines : list (R * R)) (self : Self)
  (st : Store) (m : Msg) :
  consistent stop_lines self st ->
  consistent stop_lines (fields (deliver self st m)) (store (deliver self st m)).
Proof.
  intros [Hsl Hc]. destruct m as [p | ws | tl | v].
  - simpl.
    destruct (cycle_frame self p st) as (H1 & H2 & H3 & _ & H5 & H6).
    split; [now rewrite H1 |]. rewrite H2, H3.
    destruct (waypoints self) as [refs |];
      destruct (waypoints_kdtree self) as [tree |]; try exact Hc.
    destruct Hc as (Hnd & Hall & Hposes).
    split; [exact Hnd |]. split; [now rewrite H5 |].
    rewrite <- Hposes. unfold deref. rewrite !map_map.
    apply map_ext. intros l. apply H6.
  - pose proof (alloc_deref st ws) as Hd.
    pose proof (alloc_fresh st ws) as [Hnd Hfresh].
    unfold alloc in Hd, Hnd, Hfresh. simpl in Hd, Hnd, Hfresh.
    unfold consistent, handle, waypoints_cb, alloc. simpl.
    split; [exact Hsl |].
    split; [exact Hnd |]. split; [| now rewrite Hd].
    eapply Forall_impl; [| exact Hfresh]. simpl. intros l Hl. lia.
  - exact (conj Hsl Hc).
  - exact (conj Hsl Hc).
Qed.

(** X12: whatever messages arrive after start-up, in whatever order, and
    whether or not handlers raise on the way, the node is left in a state
    where the stop lines are the configured ones, the track and its spatial
    index are both unset or both set, the references of the track are
    pairwise different and allocated, and the positions the index was built
    from are the positions the track has now. *)
Theorem reachable_states_are_consistent (stop_lines : list (R * R))
  (ms : list Msg) :
  let s := run (init stop_lines) empty_store ms in
  consistent stop_lines (fst s) (snd s).
Proof.
  assert (Hgen : forall ms self st,
            consistent stop_lines self st ->
            consistent stop_lines (fst (run self st ms))
              (snd (run self st ms))).
  { clear ms. induction ms as [| m ms IH]; intros self st Hc; [exact Hc |].
    simpl. apply IH. now apply deliver_keeps_consistent. }
  apply Hgen. split; [reflexivity | exact I].
Qed.

Lemma deliver_keeps_track (self : Self) (st : Store) (m : Msg) :
  no_track m ->
  waypoints (fields (deliver self st m)) = waypoints self /\
  waypoints_kdtree (fields (deliver self st m)) = waypoints_kdtree self /\
  forall l, pose (obj (store (deliver self st m)) l) = pose (obj st l).
Proof.
  intros Hm. destruct m as [p | ws | tl | v].
  - simpl. destruct (cycle_frame self p st) as (_ & H2 & H3 & _ & _ & H6).
    now repeat split.
  - destruct Hm.
  - now repeat split.
  - now repeat split.
Qed.

(** X13: as long as no new track arrives, the track stays the list of
    references it was, never reordered or resized, the spatial index stays
    the one that was built, and no pose of any waypoint changes; pose
    updates, signal readings and speed reports can only change speeds. *)
Theorem track_geometry_is_stable (self : Self) (st : Store) (ms : list Msg) :
  Forall no_track ms ->
  let s := run self st ms in
  waypoints (fst s) = waypoints self /\
  waypoints_kdtree (fst s) = waypoints_kdtree self /\
  forall l, pose (obj (snd s) l) = pose (obj st l).
Proof.
  revert self st. induction ms as [| m ms IH]; intros self st Hms.
  - now repeat split.
  - inversion Hms as [| ? ? Hm Hms']; subst. simpl.
    destruct (deliver_keeps_track self st m Hm) as (H1 & H2 & H3).
    destruct (IH (fields (deliver self st m)) (store (deliver self st m))
                Hms') as (I1 & I2 & I3).
    split; [now rewrite I1 |]. split; [now rewrite I2 |].
    intros l. now rewrite I3.
Qed.

(** X14: with no signal stored, or with a stored signal whose state is
    neither 0 nor 1, a pose update on a loaded track returns, writes
    nothing, publishes the stop-line index and then the window cut from the
    canonical track, and leaves no signal stored. *)
Theorem other_signal_cruises (self : Self) (msg : Pose) (st : Store)
  (canonical : list loc) (stop_idx : Z) :
  waypoints self = Some canonical ->
  stop_index self msg = Ok stop_idx ->
  must_stop self = false ->
  let c := vehicle_index self msg in
  cycle self msg st =
    {| status := Ok tt;
       fields := with_current_traffic_light (with_current_pose self msg) None;
       store := st;
       sent := [Stop_line_waypoint stop_idx;
                Final_waypoints
                  (deref st (Py.slice canonical c (c + LOOKAHEAD_WPS)))] |}.
Proof.
  intros Hw Hs Hm c. unfold pose_cb. rewrite Hw.
  change (stop_line_waypoint_idx next_waypoint_index_kdtree kdtree_query
            (with_current_pose self msg) msg) with (stop_index self msg).
  rewrite Hs.
  change (must_stop (with_current_pose self msg)) with (must_stop self).
  rewrite Hm. reflexivity.
Qed.

(** X15: on a loaded track, once the stop line has been mapped to a track
    index, that index is the first thing the pose update publishes, whatever
    the signal and whether or not the generator raises afterwards. *)
Theorem stop_line_index_is_published_first (self : Self) (msg : Pose)
  (st : Store) (canonical : list loc) (stop_idx : Z) :
  waypoints self = Some canonical ->
  stop_index self msg = Ok stop_idx ->
  hd_error (sent (cycle self msg st)) = Some (Stop_line_waypoint stop_idx).
Proof.
  intros Hw Hs. unfold pose_cb. rewrite Hw.
  change (stop_line_waypoint_idx next_waypoint_index_kdtree kdtree_query
            (with_current_pose self msg) msg) with (stop_index self msg).
  rewrite Hs.
  destruct (if must_stop _ then _ else _) as [[r | e] st']; reflexivity.
Qed.

(** X16: a pose update that returned is repeated exactly by the next one at
    the same pose when nothing else arrived in between: same messages
    published, same fields, same store.  In particular the speeds a
    deceleration wrote are published again although the signal was
    cleared. *)
Theorem repeated_pose_update_republishes (self : Self) (msg : Pose)
  (st : Store) :
  waypoints self <> None ->
  status (cycle self msg st) = Ok tt ->
  let o := cycle self msg st in
  cycle (fields o) msg (store o) = o.
Proof.
  intros Hw. unfold pose_cb.
  destruct (waypoints self) as [canonical |] eqn:Ew; [| contradiction].
  destruct (stop_line_waypoint_idx next_waypoint_index_kdtree kdtree_query
              (with_current_pose self msg) msg) as [s | e] eqn:Es;
    [| discriminate].
  destruct (if must_stop _ then _ else _) as [[r | e] st'] eqn:E;
    [| discriminate].
  intros _. simpl. rewrite Ew.
  change (stop_line_waypoint_idx next_waypoint_index_kdtree kdtree_query
            (with_current_pose
               (with_current_traffic_light (with_current_pose self msg) None)
               msg) msg)
    with (stop_line_waypoint_idx next_waypoint_index_kdtree kdtree_query
            (with_current_pose self msg) msg).
  rewrite Es.
  assert (Hr : r = canonical).
  { destruct (must_stop _).
    - now apply set_velocity_returns_its_argument in E.
    - now inversion E. }
  subst r. reflexivity.
Qed.

(** X17: the waypoints of a published window have the poses of the
    canonical track from the vehicle index on, in the same order, also when
    the cycle decelerated: only speeds can differ. *)
Theorem window_poses_are_canonical (self : Self) (msg : Pose) (st : Store)
  (canonical : list loc) (lane : list Waypoint) :
  waypoints self = Some canonical ->
  In (Final_waypoints lane) (sent (cycle self msg st)) ->
  let c := vehicle_index self msg in
  map pose lane
    = map pose (deref st (Py.slice canonical c (c + LOOKAHEAD_WPS))).
Proof.
  intros Hw Hin c. unfold pose_cb in Hin. rewrite Hw in Hin.
  destruct (stop_line_waypoint_idx _ _ _ _) as [s | e]; [| destruct Hin].
  destruct (if must_stop _ then _ else _) as [[r | e] st'] eqn:E.
  - assert (Hr : r = canonical /\
                 forall l, pose (obj st' l) = pose (obj st l)).
    { destruct (must_stop _).
      - split; [now apply set_velocity_returns_its_argument in E |].
        intros l. eapply set_velocity_keeps_poses, E.
      - inversion E; subst. now split. }
    destruct Hr as [-> Hposes]. simpl in Hin.
    destruct Hin as [H | [H | []]]; [discriminate H |].
    inversion H; subst lane; clear H.
    unfold deref. rewrite !map_map. apply map_ext. intros l. apply Hposes.
  - simpl in Hin. destruct Hin as [H | []]. discriminate H.
Qed.

End Handlers.

(** ** The further properties on the unit track *)

Lemma track_geometry_is_stable_witness :
  let s :=
    spin ahead_on_unit_axis only_stop_line (fst approaching) (snd approaching)
      [Current_pose (at_x 0); Traffic_waypoint RED; Current_velocity 3] in
  waypoints (fst s) = waypoints (fst approaching) /\
  waypoints_kdtree (fst s) = waypoints_kdtree (fst approaching) /\
  forall l, pose (obj (snd s) l) = pose (obj (snd approaching) l).
Proof.
  apply (track_geometry_is_stable ahead_on_unit_axis only_stop_line
           (fst approaching) (snd approaching)
           [Current_pose (at_x 0); Traffic_waypoint RED; Current_velocity 3]).
  repeat constructor.
Defined.

Lemma other_signal_cruises_witness :
  let self := fst cruising in
  let st := snd cruising in
  let c := closest_wp_idx ahead_on_unit_axis self (at_x 0) in
  current_traffic_light self = Some GREEN /\
  pose_cb ahead_on_unit_axis only_stop_line self (at_x 0) st =
    {| status := Ok tt;
       fields :=
         with_current_traffic_light (with_current_pose self (at_x 0)) None;
       store := st;
       sent := [Stop_line_waypoint 2;
                Final_waypoints
                  (deref st (Py.slice unit_refs c (c + LOOKAHEAD_WPS)))] |}.
Proof.
  intros self st c. split; [reflexivity |].
  apply (other_signal_cruises ahead_on_unit_axis only_stop_line self (at_x 0)
           st unit_refs 2).
  - reflexivity.
  - unfold stop_line_waypoint_idx. simpl. f_equal.
    apply ceil_exact. reflexivity.
  - reflexivity.
Defined.

Lemma stop_line_index_is_published_first_witness :
  let o :=
    pose_cb ahead_on_unit_axis only_stop_line (fst at_track_end) (at_x 0)
      (snd at_track_end) in
  hd_error (sent o) = Some (Stop_line_waypoint 1).
Proof.
  apply (stop_line_index_is_published_first ahead_on_unit_axis
           only_stop_line (fst at_track_end) (at_x 0) (snd at_track_end)
           [0; 1]%nat 1).
  - reflexivity.
  - unfold stop_line_waypoint_idx. simpl. f_equal.
    apply ceil_exact. reflexivity.
Defined.

Lemma repeated_pose_update_republishes_witness :
  let o :=
    pose_cb ahead_on_unit_axis only_stop_line (fst approaching) (at_x 0)
      (snd approaching) in
  mode (fst approaching) = DECELERATE /\
  pose_cb ahead_on_unit_axis only_stop_line (fields o) (at_x 0) (store o) = o.
Proof.
  split; [reflexivity |].
  apply (repeated_pose_update_republishes ahead_on_unit_axis only_stop_line
           (fst approaching) (at_x 0) (snd approaching)).
  - discriminate.
  - rewrite approaching_cycle. reflexivity.
Defined.

Lemma window_poses_are_canonical_witness :
  let o :=
    pose_cb ahead_on_unit_axis only_stop_line (fst approaching) (at_x 0)
      (snd approaching) in
  let c := closest_wp_idx ahead_on_unit_axis (fst approaching) (at_x 0) in
  exists lane,
    In (Final_waypoints lane) (sent o) /\
    map pose lane
      = map pose
          (deref (snd approaching)
             (Py.slice unit_refs c (c + LOOKAHEAD_WPS))).
Proof.
  intros o c. eexists. split.
  - unfold o. rewrite approaching_cycle. simpl. right. left. reflexivity.
  - apply (window_poses_are_canonical ahead_on_unit_axis only_stop_line
             (fst approaching) (at_x 0) (snd approaching) unit_refs).
    + reflexivity.
    + rewrite approaching_cycle. simpl. right. left. reflexivity.
Defined.

Section Endings.

Variable next_waypoint_index_kdtree : Pose -> option (list Waypoint) -> Z.
Variable kdtree_query : list (R * R) -> R * R -> Z.

Local Abbreviation cycle :=
  (pose_cb next_waypoint_index_kdtree kdtree_query).

(** X18: a pose update raises [AttributeError] when the track is not
    loaded and can otherwise only raise [IndexError]; whenever it raises it
    has published no window and the stored signal is the one it started
    with. *)
Theorem raising_cycle_publishes_no_window (self : Self) (msg : Pose)
  (st : Store) (e : exn) :
  status (cycle self msg st) = Raise e ->
  match waypoints self with
  | None => e = AttributeError
  | Some _ => e = IndexError
  end /\
  (forall lane, ~ In (Final_waypoints lane) (sent (cycle self msg st))) /\
  current_traffic_light (fields (cycle self msg st))
    = current_traffic_light self.
Proof.
  unfold pose_cb.
  destruct (waypoints self) as [canonical |].
  - destruct (stop_line_waypoint_idx _ _ _ _) as [s | e1] eqn:Es.
    + destruct (if must_stop _ then _ else _) as [[r | e2] st'] eqn:E;
        [discriminate |].
      simpl. intros H. inversion H; subst e2; clear H.
      split; [| split; [| reflexivity]].
      * destruct (must_stop _); [| discriminate E].
        eapply set_velocity_raises, E.
      * intros lane [H | []]. discriminate H.
    + simpl. intros H. inversion H; subst e1; clear H.
      split; [| split; [| reflexivity]].
      * unfold stop_line_waypoint_idx in Es.
        destruct (Py.index _ _) as [p | e2] eqn:Ei; simpl in Es;
          [discriminate |].
        inversion Es; subst. eapply index_raises, Ei.
      * intros lane [].
  - simpl. intros H. inversion H; subst e; clear H.
    split; [reflexivity |]. split; [intros lane [] | reflexivity].
Qed.

(** X19: states 0 and 1 are treated alike: with either stored, a pose update
    ends the same way, leaves the same store and publishes the same
    messages. *)
Theorem red_and_yellow_alike (self : Self) (msg : Pose) (st : Store) :
  let o0 :=
    cycle (with_current_traffic_light self (Some {| state := 0 |})) msg st in
  let o1 :=
    cycle (with_current_traffic_light self (Some {| state := 1 |})) msg st in
  status o0 = status o1 /\ store o0 = store o1 /\ sent o0 = sent o1.
Proof.
  unfold pose_cb. simpl.
  destruct (waypoints self) as [canonical |]; [| now repeat split].
  change (stop_line_waypoint_idx next_waypoint_index_kdtree kdtree_query
            (with_current_pose
               (with_current_traffic_light self (Some {| state := 0 |}))
               msg) msg)
    with (stop_line_waypoint_idx next_waypoint_index_kdtree kdtree_query
            (with_current_pose
               (with_current_traffic_light self (Some {| state := 1 |}))
               msg) msg).
  destruct (stop_line_waypoint_idx _ _ _ _) as [s | e];
    [| now repeat split].
  change (must_stop
            (with_current_pose
               (with_current_traffic_light self (Some {| state := 0 |}))
               msg)) with true.
  change (must_stop
            (with_current_pose
               (with_current_traffic_light self (Some {| state := 1 |}))
               msg)) with true.
  simpl.
  destruct (set_velocity_leading_to_stop_point _ _ _ _ _) as [[r | e] st'];
    now repeat split.
Qed.

End Endings.

Lemma raising_cycle_publishes_no_window_witness :
  let o :=
    pose_cb ahead_on_unit_axis only_stop_line (fst at_track_end) (at_x 0)
      (snd at_track_end) in
  status o = Raise IndexError /\
  match waypoints (fst at_track_end) with
  | None => IndexError = AttributeError
  | Some _ => IndexError = IndexError
  end /\
  (forall lane, ~ In (Final_waypoints lane) (sent o)) /\
  current_traffic_light (fields o) = Some RED.
Proof.
  intros o.
  assert (Hs : status o = Raise IndexError)
    by (unfold o; rewrite track_end_cycle; reflexivity).
  split; [exact Hs |].
  exact (raising_cycle_publishes_no_window ahead_on_unit_axis only_stop_line
           (fst at_track_end) (at_x 0) (snd at_track_end) IndexError Hs).
Defined.

(** * [distance] on binary64 *)

Lemma binary64_sub_self (v : PrimFloat.float) :
  PrimFloat.is_finite v = true -> PrimFloat.sub v v = PrimFloat.zero.
Proof.
  intros Hf. apply FloatAxioms.Prim2SF_inj.
  rewrite FloatAxioms.sub_spec.
  unfold PrimFloat.is_finite, PrimFloat.is_nan, PrimFloat.is_infinity in Hf.
  rewrite !FloatAxioms.eqb_spec, FloatAxioms.abs_spec in Hf.
  destruct (FloatOps.Prim2SF v) as [s | s | | s m e].
  - destruct s; reflexivity.
  - destruct s; vm_compute in Hf; discriminate Hf.
  - vm_compute in Hf. discriminate Hf.
  - unfold FloatAxioms.SF64sub, SpecFloat.SFsub.
    rewrite Z.sub_diag. reflexivity.
Qed.

Lemma binary64_dl_same (p : Binary64.Point) :
  Binary64.finite p = true -> Binary64.dl p p = PrimFloat.zero.
Proof.
  unfold Binary64.finite. intros Hf.
  apply andb_prop in Hf. destruct Hf as [Hf Hz].
  apply andb_prop in Hf. destruct Hf as [Hx Hy].
  unfold Binary64.dl.
  rewrite !(binary64_sub_self _ Hx), !(binary64_sub_self _ Hy),
    !(binary64_sub_self _ Hz).
  reflexivity.
Qed.

Lemma binary64_loop_app (w : list Binary64.Point) (l1 l2 : list Z)
  (prev : Z) (acc : PrimFloat.float) :
  Binary64.distance_loop w (l1 ++ l2) prev acc =
    (d <- Binary64.distance_loop w l1 prev acc ;;
     Binary64.distance_loop w l2 (last l1 prev) d).
Proof.
  revert prev acc. induction l1 as [| i l1 IH]; intros prev acc.
  - reflexivity.
  - rewrite last_cons_default. simpl.
    destruct (Py.index w prev) as [a | e]; simpl; [| reflexivity].
    destruct (Py.index w i) as [b | e]; simpl; [| reflexivity].
    apply IH.
Qed.

Lemma binary64_loop_returns (w : list Binary64.Point) (l : list Z)
  (prev : Z) (acc : PrimFloat.float) :
  (0 <= prev < Z.of_nat (List.length w))%Z ->
  Forall (fun i => (0 <= i < Z.of_nat (List.length w))%Z) l ->
  exists d, Binary64.distance_loop w l prev acc = Ok d.
Proof.
  revert prev acc. induction l as [| i l IH]; intros prev acc Hp Hl.
  - now exists acc.
  - inversion Hl as [| ? ? Hi Hl']; subst. simpl.
    destruct (index_in_range _ w prev Hp) as (a & ->).
    destruct (index_in_range _ w i Hi) as (b & ->). simpl.
    now apply IH.
Qed.

(** C10, as the specification words it, fails on the doubles the code adds.
    On the positions x = 0, 0.1, 0.2, 1.1 the distance from index 0 to
    index 3 is 1.1, the distances from 0 to 1 and from 1 to 3 are 0.1 and
    1.0000000000000002, and their rounded sum is not 1.1. *)
Lemma binary64_split_is_inexact :
  exists whole head tail,
    Binary64.distance Binary64.tenths_track 0 3 = Ok whole /\
    Binary64.distance Binary64.tenths_track 0 1 = Ok head /\
    Binary64.distance Binary64.tenths_track 1 3 = Ok tail /\
    whole <> PrimFloat.add head tail.
Proof.
  do 3 eexists.
  split; [vm_compute; reflexivity |].
  split; [vm_compute; reflexivity |].
  split; [vm_compute; reflexivity |].
  intros H.
  apply (f_equal (fun v => PrimFloat.eqb v
           (Binary64.x (nth 3 Binary64.tenths_track (Binary64.along_x
                                                      PrimFloat.zero)))))
    in H.
  vm_compute in H. discriminate H.
Qed.

(** C10, amended: on binary64, [distance(w, i, i)] is 0 when [w[i]] has
    finite coordinates, and the distance grows one segment at a time: for
    [0 <= i <= k] with [k + 1] an index of the list, [distance(w, i, k + 1)]
    is the rounded sum of [distance(w, i, k)] and the length of the segment
    from [w[k]] to [w[k + 1]]; all the calls return. *)
Theorem binary64_distance_adds_one_segment (w : list Binary64.Point)
  (i k : Z) (p : Binary64.Point) :
  (0 <= i)%Z -> (i <= k)%Z -> (k + 1 < Z.of_nat (List.length w))%Z ->
  Py.index w i = Ok p -> Binary64.finite p = true ->
  Binary64.distance w i i = Ok PrimFloat.zero /\
  exists d a b,
    Binary64.distance w i k = Ok d /\
    Py.index w k = Ok a /\
    Py.index w (k + 1) = Ok b /\
    Binary64.distance w i (k + 1)
      = Ok (PrimFloat.add d (Binary64.dl a b)).
Proof.
  intros Hi Hik Hk Hp Hfin. split.
  - unfold Binary64.distance.
    rewrite (range_cons i (i + 1)) by lia.
    rewrite (range_empty (i + 1) (i + 1)) by lia.
    simpl. rewrite Hp. simpl.
    rewrite (binary64_dl_same p Hfin). reflexivity.
  - destruct (binary64_loop_returns w (Py.range i (k + 1)) i PrimFloat.zero)
      as (d & Hd); [lia | apply range_bounds; lia |].
    destruct (index_in_range _ w k) as (a & Ha); [lia |].
    destruct (index_in_range _ w (k + 1)) as (b & Hb); [lia |].
    exists d, a, b. repeat split; try assumption.
    unfold Binary64.distance in *.
    rewrite (range_snoc i (k + 1)) by lia.
    rewrite binary64_loop_app, Hd. simpl.
    rewrite (range_snoc i k), last_last by lia.
    rewrite Ha, Hb. reflexivity.
Qed.

Lemma binary64_distance_adds_one_segment_witness :
  Binary64.distance Binary64.tenths_track 0 0 = Ok PrimFloat.zero /\
  exists d a b,
    Binary64.distance Binary64.tenths_track 0 2 = Ok d /\
    Py.index Binary64.tenths_track 2 = Ok a /\
    Py.index Binary64.tenths_track (2 + 1) = Ok b /\
    Binary64.distance Binary64.tenths_track 0 (2 + 1)
      = Ok (PrimFloat.add d (Binary64.dl a b)).
Proof.
  apply (binary64_distance_adds_one_segment Binary64.tenths_track 0 2
           (Binary64.along_x PrimFloat.zero)).
  - lia.
  - lia.
  - simpl. lia.
  - reflexivity.
  - reflexivity.
Defined.
